(** * LibreRelayBot: IRC to Nostr bridge

    A shallow embedding of the relay engine of [libre-relay-bot.js]
    (classes [Security], [NostrClient], [LibreRelayBotBridge]) and of the
    reconnecting connection component [lib/irc-client.js] ([IRCClient]),
    together with the properties of the specification that concern them.

    Conventions.
    - A JavaScript string is its sequence of UTF-16 code units
      ([jsstring]); [String.prototype.substring], [trim] and a regular
      expression without the [u] flag all work on code units.
    - [Date.now()] returns an integral number of milliseconds; every
      clock reading is a [Z] handed to the function that reads it.
    - A JavaScript [Map] with string keys is a [gmap jsstring _]; the
      arrays stored in it are mutated in place, which the model renders
      by re-inserting the new array under the same key. *)

From Stdlib Require Import ZArith NArith List Bool Ascii String Lia Sorted.
From Stdlib Require Import Decimal DecimalFacts DecimalNat.
From stdpp Require Import base list gmap.
Import ListNotations.

Local Open Scope Z_scope.

(** ** JavaScript values and strings *)

Definition jsstring : Type := list N.

(** Code units of an ASCII literal. *)
Definition js (s : string) : jsstring :=
  List.map N_of_ascii (list_ascii_of_string s).
Arguments js s%_string.

(** The values a handler argument can hold, classified as [typeof] does;
    the payload of the non-string kinds is never inspected. *)
Inductive value : Type :=
| VUndefined
| VNull
| VBoolean (b : bool)
| VNumber (n : Z)
| VString (s : jsstring)
| VObject (ref : nat).

Definition typeof_is_string (v : value) : bool :=
  match v with VString _ => true | _ => false end.

(** ** Security utilities *)

Module Security.

(** The character class [[\x00-\x1F\x7F]]. *)
Definition is_control (c : N) : bool :=
  ((c <=? 0x1F) || (c =? 0x7F))%N.

(** [message.replace(/[\x00-\x1F\x7F]/g, '')]. *)
Definition remove_control (s : jsstring) : jsstring :=
  List.filter (fun c => negb (is_control c)) s.

(** ECMAScript [WhiteSpace] and [LineTerminator] code points, the set
    removed by [String.prototype.trim]. *)
Definition is_whitespace (c : N) : bool :=
  ((c =? 0x9) || (c =? 0xA) || (c =? 0xB) || (c =? 0xC) || (c =? 0xD)
   || (c =? 0x20) || (c =? 0xA0) || (c =? 0x1680)
   || ((0x2000 <=? c) && (c <=? 0x200A))
   || (c =? 0x2028) || (c =? 0x2029) || (c =? 0x202F) || (c =? 0x205F)
   || (c =? 0x3000) || (c =? 0xFEFF))%N.

Fixpoint trimStart (s : jsstring) : jsstring :=
  match s with
  | [] => []
  | c :: r => if is_whitespace c then trimStart r else s
  end.

Definition trimEnd (s : jsstring) : jsstring :=
  rev (trimStart (rev s)).

Definition trim (s : jsstring) : jsstring :=
  trimEnd (trimStart s).

(** [s.substring(0, n)]. *)
Definition substring0 (n : nat) (s : jsstring) : jsstring :=
  take n s.

(** The string branch of [sanitizeMessage]: strip, trim, truncate. *)
Definition sanitize_string (s : jsstring) : jsstring :=
  substring0 280 (trim (remove_control s)).

(** [static sanitizeMessage(message)]. *)
Definition sanitizeMessage (message : value) : jsstring :=
  match message with
  | VString s => sanitize_string s
  | _ => []
  end.

(** Whether the last code unit of a string is white space. *)
Definition ends_with_whitespace (s : jsstring) : bool :=
  match rev s with
  | [] => false
  | c :: _ => is_whitespace c
  end.

(** Whether a string is empty or starts with a non-white-space unit. *)
Definition head_clean (s : jsstring) : bool :=
  match s with
  | [] => true
  | c :: _ => negb (is_whitespace c)
  end.

(** The loop [while (userRequests.length && userRequests[0] <
    windowStart) userRequests.shift()]: it stops at the first entry
    that is inside the window and never looks past it. *)
Fixpoint shift_old (windowStart : Z) (userRequests : list Z) : list Z :=
  match userRequests with
  | [] => []
  | t :: rest =>
      if t <? windowStart then shift_old windowStart rest else userRequests
  end.

(** The closure returned by [createRateLimiter(maxRequests, windowMs)],
    applied to [key] when [Date.now()] reads [now].  The [Map] captured
    by the closure is passed in and handed back; the verdict comes
    first.  A rejected call still creates the entry and drops the
    expired timestamps, but pushes nothing. *)
Definition rateLimiter (maxRequests windowMs : Z)
    (requests : gmap jsstring (list Z)) (key : jsstring) (now : Z)
  : bool * gmap jsstring (list Z) :=
  let windowStart := now - windowMs in
  let requests :=
    match requests !! key with
    | Some _ => requests
    | None => <[key := []]> requests
    end in
  let userRequests := shift_old windowStart (default [] (requests !! key)) in
  if Z.of_nat (length userRequests) >=? maxRequests
  then (false, <[key := userRequests]> requests)
  else (true, <[key := userRequests ++ [now]]> requests).

(** Successive calls of one limiter: each call is a key and the clock
    reading taken inside it. *)
Fixpoint rateLimiter_run (maxRequests windowMs : Z)
    (requests : gmap jsstring (list Z)) (calls : list (jsstring * Z))
  : list bool * gmap jsstring (list Z) :=
  match calls with
  | [] => ([], requests)
  | (key, now) :: rest =>
      let '(ok, requests) := rateLimiter maxRequests windowMs requests key now in
      let '(oks, requests) := rateLimiter_run maxRequests windowMs requests rest in
      (ok :: oks, requests)
  end.

End Security.

(** ** Promises and the network

    An [async] function is modelled by the way its promise settles and
    by the network operations it performed until then. *)

Module Async.

Inductive error : Type := ConnectError | PublishError.

Inductive promise (A : Type) : Type :=
| fulfilled (value : A)
| rejected (reason : error).
Arguments fulfilled {A} value.
Arguments rejected {A} reason.

Definition is_fulfilled {A} (r : promise A) : bool :=
  match r with fulfilled _ => true | rejected _ => false end.

Definition is_rejected {A} (r : promise A) : bool :=
  match r with fulfilled _ => false | rejected _ => true end.

Section WithOps.
Context {Op : Type}.

Definition async (A : Type) : Type := promise A * list Op.

Definition ret {A} (a : A) : async A := (fulfilled a, []).

(** [await m] followed by the rest of the function body [k]: a
    rejection of [m] skips [k] and rejects the whole function. *)
Definition await {A B} (m : async A) (k : A -> async B) : async B :=
  match m with
  | (fulfilled a, ops) => let '(r, ops') := k a in (r, ops ++ ops')
  | (rejected e, ops) => (rejected e, ops)
  end.

(** [try { m } finally { ops }]: the settlement of [m] is kept. *)
Definition try_finally {A} (m : async A) (cleanup : list Op) : async A :=
  (fst m, snd m ++ cleanup).

(** [Promise.allSettled]: always fulfilled, with one settlement per
    input promise, in input order. *)
Definition allSettled {A} (ms : list (async A)) : async (list (promise A)) :=
  (fulfilled (List.map fst ms), concat (List.map snd ms)).
End WithOps.

End Async.

(** ** The Nostr client *)

Module Nostr.
Import Async.

(** The template handed to [finalizeEvent]; signing (nostr-tools) adds
    [id], [pubkey] and [sig] and leaves these fields as they are. *)
Record Event : Type := {
  kind : Z;
  content : jsstring;
  tags : list (list jsstring);
  created_at : Z
}.

Record PublishResult : Type := {
  success : bool;
  published : nat;
  failed : nat
}.

(** How a relay answers: [Relay.connect] rejects, or [relay.publish]
    rejects, or both are fulfilled. *)
Inductive relay_behaviour : Type := ConnectFails | PublishFails | Accepts.

Inductive net_op : Type :=
| NetConnect (url : jsstring)
| NetPublish (url : jsstring) (event : Event)
| NetClose (url : jsstring).

(** The fields of [NostrClient] that the publish path reads; the secret
    key only enters [finalizeEvent]. *)
Record NostrClient : Type := {
  relays : list jsstring;
  testMode : bool
}.

Definition Relay_connect (net : jsstring -> relay_behaviour) (url : jsstring)
  : async (Op := net_op) unit :=
  (match net url with
   | ConnectFails => rejected ConnectError
   | _ => fulfilled tt
   end, [NetConnect url]).

Definition relay_publish (net : jsstring -> relay_behaviour) (url : jsstring)
    (event : Event) : async (Op := net_op) unit :=
  (match net url with
   | PublishFails => rejected PublishError
   | _ => fulfilled tt
   end, [NetPublish url event]).

(** [async _publishToRelay(url, event)]. *)
Definition _publishToRelay (net : jsstring -> relay_behaviour)
    (url : jsstring) (event : Event) : async (Op := net_op) jsstring :=
  await (Relay_connect net url) (fun _ =>
    try_finally
      (await (relay_publish net url event) (fun _ => ret url))
      [NetClose url]).

(** [async _publishToRelays(event)].  The operations of the relays are
    listed relay after relay; their real interleaving is not fixed by
    the code and no statement below depends on it. *)
Definition _publishToRelays (this : NostrClient)
    (net : jsstring -> relay_behaviour) (event : Event)
  : async (Op := net_op) PublishResult :=
  await (allSettled
           (List.map (fun url => _publishToRelay net url event) (relays this)))
    (fun results =>
       let successful := length (List.filter is_fulfilled results) in
       let failed := length (List.filter is_rejected results) in
       ret {| success := (0 <? successful)%nat;
              published := successful;
              failed := failed |}).

(** The event built at the top of [publishMessage(content, tags = [])],
    [now] being the reading of [Date.now()]. *)
Definition build_event (now : Z) (content : jsstring)
    (tags : list (list jsstring)) : Event :=
  {| kind := 1;
     content := content;
     tags := [js "t"; js "sirlibre"] :: [js "t"; js "librerelaybot"] :: tags;
     created_at := now / 1000 |}.

(** [async publishMessage(content, tags = [])]. *)
Definition publishMessage (this : NostrClient)
    (net : jsstring -> relay_behaviour) (now : Z) (content : jsstring)
    (tags : list (list jsstring)) : async (Op := net_op) PublishResult :=
  let event := build_event now content tags in
  if testMode this
  then ret {| success := true; published := 0; failed := 0 |}
  else _publishToRelays this net event.

End Nostr.

(** ** The bridge *)

Module Bridge.
Import Async.

(** The variables of [process.env] that the engine reads; [None] is an
    unset variable. *)
Record Env : Type := {
  IRC_CHANNEL : option jsstring;
  TARGET_BOT : option jsstring;
  TEST_MODE : option jsstring;
  NOSTR_RELAYS : option jsstring
}.

Record Config : Type := {
  irc_channels : list jsstring;
  nostr_relays : list jsstring;
  app_testMode : bool;
  app_targetBot : jsstring
}.

(** [process.env.X || fallback]: unset and empty are both falsy. *)
Definition or_default (x : option jsstring) (fallback : jsstring) : jsstring :=
  match x with
  | Some (c :: s) => c :: s
  | _ => fallback
  end.

Definition default_relays : list jsstring :=
  [js "wss://relay.damus.io"; js "wss://relay.nostr.band"; js "wss://nostr.mom";
   js "wss://relay.primal.net"; js "wss://chadf.nostr1.com"].

(** [value.split(',')], the piece being read kept reversed in [cur]. *)
Fixpoint split_comma (value cur : jsstring) : list jsstring :=
  match value with
  | [] => [rev cur]
  | c :: rest =>
      if (c =? 0x2C)%N then rev cur :: split_comma rest []
      else split_comma rest (c :: cur)
  end.

Definition nonempty (s : jsstring) : bool :=
  match s with [] => false | _ => true end.

Definition parseRelays (value : option jsstring) : list jsstring :=
  match value with
  | Some (c :: s) =>
      List.filter nonempty (List.map Security.trim (split_comma (c :: s) []))
  | _ => default_relays
  end.

Definition jsstring_eqb (a b : jsstring) : bool :=
  bool_decide (a = b).

(** [new Config()]. *)
Definition new_Config (env : Env) : Config :=
  {| irc_channels := [or_default (IRC_CHANNEL env) (js "#SirLibre")];
     nostr_relays := parseRelays (NOSTR_RELAYS env);
     app_testMode :=
       match TEST_MODE env with
       | Some v => jsstring_eqb v (js "true")
       | None => false
       end;
     app_targetBot := or_default (TARGET_BOT env) (js "LibreRelayBot") |}.

Record Stats : Type := {
  messagesMonitored : nat;
  successfulPosts : nat;
  failedPosts : nat;
  lastActivity : option Z
}.

(** The fields of [LibreRelayBotBridge] the message path uses;
    [rateLimiter] holds the [Map] owned by the limiter closure created
    with [Security.createRateLimiter(5, 60000)]. *)
Record t : Type := {
  config : Config;
  stats : Stats;
  nostrClient : option Nostr.NostrClient;
  rateLimiter : gmap jsstring (list Z)
}.

Definition _initStats : Stats :=
  {| messagesMonitored := 0; successfulPosts := 0; failedPosts := 0;
     lastActivity := None |}.

(** The constructor. *)
Definition new_Bridge (env : Env) : t :=
  {| config := new_Config env;
     stats := _initStats;
     nostrClient := None;
     rateLimiter := ∅ |}.

Definition _initializeNostrClient (this : t) : t :=
  {| config := config this;
     stats := stats this;
     nostrClient :=
       Some {| Nostr.relays := nostr_relays (config this);
               Nostr.testMode := app_testMode (config this) |};
     rateLimiter := rateLimiter this |}.

Definition with_stats (this : t) (st : Stats) : t :=
  {| config := config this; stats := st;
     nostrClient := nostrClient this; rateLimiter := rateLimiter this |}.

Definition with_rateLimiter (this : t) (m : gmap jsstring (list Z)) : t :=
  {| config := config this; stats := stats this;
     nostrClient := nostrClient this; rateLimiter := m |}.

Definition count_success (st : Stats) : Stats :=
  {| messagesMonitored := messagesMonitored st;
     successfulPosts := S (successfulPosts st);
     failedPosts := failedPosts st;
     lastActivity := lastActivity st |}.

Definition count_failure (st : Stats) : Stats :=
  {| messagesMonitored := messagesMonitored st;
     successfulPosts := successfulPosts st;
     failedPosts := S (failedPosts st);
     lastActivity := lastActivity st |}.

Definition count_monitored (st : Stats) (now : Z) : Stats :=
  {| messagesMonitored := S (messagesMonitored st);
     successfulPosts := successfulPosts st;
     failedPosts := failedPosts st;
     lastActivity := Some now |}.

(** The three clock readings taken while one message is handled. *)
Record Clock : Type := {
  at_activity : Z;
  at_rateLimiter : Z;
  at_publish : Z
}.

(** What handling one message did: the new state of the bridge, the
    events for which [publishMessage] was called, and the network
    operations performed. *)
Record Outcome : Type := {
  bridge : t;
  posts : list Nostr.Event;
  network : list Nostr.net_op
}.

Definition unchanged (this : t) : Outcome :=
  {| bridge := this; posts := []; network := [] |}.

(** [async _postToNostr(message)], called with a client present. *)
Definition _postToNostr (this : t) (client : Nostr.NostrClient)
    (net : jsstring -> Nostr.relay_behaviour) (now : Z) (message : value)
  : Outcome :=
  let sanitizedMessage := Security.sanitizeMessage message in
  match sanitizedMessage with
  | [] => unchanged this
  | _ =>
      let '(result, ops) :=
        Nostr.publishMessage client net now sanitizedMessage [] in
      let st :=
        match result with
        | fulfilled r =>
            if Nostr.success r then count_success (stats this)
            else count_failure (stats this)
        | rejected _ => count_failure (stats this)
        end in
      {| bridge := with_stats this st;
         posts := [Nostr.build_event now sanitizedMessage []];
         network := ops |}
  end.

(** [async _handleIRCMessage(from, to, message)]. *)
Definition _handleIRCMessage (this : t)
    (net : jsstring -> Nostr.relay_behaviour) (clock : Clock)
    (from to : jsstring) (message : value) : Outcome :=
  if negb (jsstring_eqb from (app_targetBot (config this)))
  then unchanged this
  else
    let this := with_stats this (count_monitored (stats this) (at_activity clock)) in
    let '(allowed, requests) :=
      Security.rateLimiter 5 60000 (rateLimiter this) from (at_rateLimiter clock) in
    let this := with_rateLimiter this requests in
    if negb allowed then unchanged this
    else
      match nostrClient this with
      | Some client => _postToNostr this client net (at_publish clock) message
      | None => unchanged this
      end.

End Bridge.

(** ** The IRC connection component

    [IRCClient] is driven by the Node event loop.  The model keeps the
    fields of the object together with the part of the event loop it
    populates (pending [setTimeout] callbacks, running [setInterval]
    handles); a step is one callback or one method call running to
    completion.  The environment decides which pending callback runs
    next, so every order the event loop can produce is a run of the
    model. *)

Module IRC.

(** Set once in the constructor and never assigned again. *)
Definition maxReconnectAttempts : Z := 10.
Definition reconnectDelay : Z := 10000.

Inductive timeout_kind : Type :=
| ReconnectTimer      (* the callback of [attemptReconnect] *)
| ResetTimer.         (* the callback of [resetAndReconnect] *)

Record state : Type := {
  (* fields of the object *)
  client : option nat;             (* the live [irc.Client], or null *)
  isConnected : bool;
  reconnectAttempts : Z;
  reconnecting : bool;
  keepAliveInterval : option nat;
  zncHealthInterval : option nat;
  (* event loop *)
  pendingTimeouts : list (nat * timeout_kind);
  activeIntervals : list nat;
  nextId : nat                     (* next fresh handle or object identity *)
}.

(** What the component does to the outside. *)
Inductive action : Type :=
| NewClient (cid : nat)            (* [new irc.Client(...)], autoConnect *)
| ClientDisconnect (cid : nat)     (* [removeAllListeners(); disconnect()] *)
| SetTimeout (h : nat) (k : timeout_kind) (delay : Z)
| SetInterval (h : nat) (period : Z)
| ClearInterval (h : nat)
| Send (cid : nat) (command : jsstring)
| Say (cid : nat).

(** *** Commands: state passing with a log of actions *)

Definition cmd : Type := state -> state * list action.

Definition skip : cmd := fun s => (s, []).
Definition emit (a : action) : cmd := fun s => (s, [a]).
Definition modify (f : state -> state) : cmd := fun s => (f s, []).
Definition seq (a b : cmd) : cmd :=
  fun s => let '(s1, o1) := a s in let '(s2, o2) := b s1 in (s2, o1 ++ o2).
Definition cond (c : state -> bool) (a b : cmd) : cmd :=
  fun s => if c s then a s else b s.
(** Allocation of a fresh handle or object identity. *)
Definition fresh (k : nat -> cmd) : cmd :=
  fun s => k (nextId s)
    {| client := client s; isConnected := isConnected s;
       reconnectAttempts := reconnectAttempts s;
       reconnecting := reconnecting s;
       keepAliveInterval := keepAliveInterval s;
       zncHealthInterval := zncHealthInterval s;
       pendingTimeouts := pendingTimeouts s;
       activeIntervals := activeIntervals s;
       nextId := S (nextId s) |}.

Declare Scope cmd_scope.
Delimit Scope cmd_scope with cmd.
Notation "a ;; b" := (seq a b) (at level 100, b at level 200, right associativity) : cmd_scope.
Local Open Scope cmd_scope.

(** *** Field assignments *)

Definition set_client (v : option nat) (s : state) : state :=
  {| client := v; isConnected := isConnected s;
     reconnectAttempts := reconnectAttempts s; reconnecting := reconnecting s;
     keepAliveInterval := keepAliveInterval s;
     zncHealthInterval := zncHealthInterval s;
     pendingTimeouts := pendingTimeouts s;
     activeIntervals := activeIntervals s; nextId := nextId s |}.

Definition set_isConnected (v : bool) (s : state) : state :=
  {| client := client s; isConnected := v;
     reconnectAttempts := reconnectAttempts s; reconnecting := reconnecting s;
     keepAliveInterval := keepAliveInterval s;
     zncHealthInterval := zncHealthInterval s;
     pendingTimeouts := pendingTimeouts s;
     activeIntervals := activeIntervals s; nextId := nextId s |}.

Definition set_reconnectAttempts (v : Z) (s : state) : state :=
  {| client := client s; isConnected := isConnected s;
     reconnectAttempts := v; reconnecting := reconnecting s;
     keepAliveInterval := keepAliveInterval s;
     zncHealthInterval := zncHealthInterval s;
     pendingTimeouts := pendingTimeouts s;
     activeIntervals := activeIntervals s; nextId := nextId s |}.

Definition set_reconnecting (v : bool) (s : state) : state :=
  {| client := client s; isConnected := isConnected s;
     reconnectAttempts := reconnectAttempts s; reconnecting := v;
     keepAliveInterval := keepAliveInterval s;
     zncHealthInterval := zncHealthInterval s;
     pendingTimeouts := pendingTimeouts s;
     activeIntervals := activeIntervals s; nextId := nextId s |}.

Definition set_keepAliveInterval (v : option nat) (s : state) : state :=
  {| client := client s; isConnected := isConnected s;
     reconnectAttempts := reconnectAttempts s; reconnecting := reconnecting s;
     keepAliveInterval := v;
     zncHealthInterval := zncHealthInterval s;
     pendingTimeouts := pendingTimeouts s;
     activeIntervals := activeIntervals s; nextId := nextId s |}.

Definition set_zncHealthInterval (v : option nat) (s : state) : state :=
  {| client := client s; isConnected := isConnected s;
     reconnectAttempts := reconnectAttempts s; reconnecting := reconnecting s;
     keepAliveInterval := keepAliveInterval s;
     zncHealthInterval := v;
     pendingTimeouts := pendingTimeouts s;
     activeIntervals := activeIntervals s; nextId := nextId s |}.

Definition set_pendingTimeouts (v : list (nat * timeout_kind)) (s : state) : state :=
  {| client := client s; isConnected := isConnected s;
     reconnectAttempts := reconnectAttempts s; reconnecting := reconnecting s;
     keepAliveInterval := keepAliveInterval s;
     zncHealthInterval := zncHealthInterval s;
     pendingTimeouts := v;
     activeIntervals := activeIntervals s; nextId := nextId s |}.

Definition set_activeIntervals (v : list nat) (s : state) : state :=
  {| client := client s; isConnected := isConnected s;
     reconnectAttempts := reconnectAttempts s; reconnecting := reconnecting s;
     keepAliveInterval := keepAliveInterval s;
     zncHealthInterval := zncHealthInterval s;
     pendingTimeouts := pendingTimeouts s;
     activeIntervals := v; nextId := nextId s |}.

(** *** Event-loop primitives *)

Definition setTimeout (k : timeout_kind) (delay : Z) : cmd :=
  fresh (fun h =>
    modify (fun s => set_pendingTimeouts (pendingTimeouts s ++ [(h, k)]) s) ;;
    emit (SetTimeout h k delay)).

Definition remove_handle (h : nat) (l : list nat) : list nat :=
  List.filter (fun h' => negb (Nat.eqb h h')) l.

Definition clearInterval (h : nat) : cmd :=
  modify (fun s => set_activeIntervals (remove_handle h (activeIntervals s)) s) ;;
  emit (ClearInterval h).

(** *** Methods of [IRCClient] *)

(** The constructor. *)
Definition new_IRCClient : state :=
  {| client := None; isConnected := false; reconnectAttempts := 0;
     reconnecting := false; keepAliveInterval := None;
     zncHealthInterval := None;
     pendingTimeouts := []; activeIntervals := []; nextId := 0 |}.

Definition stopKeepAlive : cmd :=
  fun s =>
    match keepAliveInterval s with
    | Some h => (clearInterval h ;; modify (set_keepAliveInterval None)) s
    | None => skip s
    end.

Definition stopZncHealthCheck : cmd :=
  fun s =>
    match zncHealthInterval s with
    | Some h => (clearInterval h ;; modify (set_zncHealthInterval None)) s
    | None => skip s
    end.

Definition disconnect : cmd :=
  stopKeepAlive ;;
  stopZncHealthCheck ;;
  modify (set_reconnecting false) ;;
  (fun s =>
     match client s with
     | Some c => (emit (ClientDisconnect c) ;; modify (set_client None)) s
     | None => skip s
     end) ;;
  modify (set_isConnected false).

(** [connect()]; [setupEventHandlers()] attaches the handlers below to
    the new client, the only one whose events are then listened to. *)
Definition connect : cmd :=
  disconnect ;;
  fresh (fun c => modify (set_client (Some c)) ;; emit (NewClient c)).

Definition attemptReconnect : cmd :=
  cond reconnecting skip
    (cond (fun s => reconnectAttempts s <? maxReconnectAttempts)
       (modify (set_reconnecting true) ;;
        modify (fun s => set_reconnectAttempts (reconnectAttempts s + 1) s) ;;
        setTimeout ReconnectTimer reconnectDelay)
       stopKeepAlive).

(** The callback passed to [setTimeout] in [attemptReconnect]. *)
Definition reconnect_callback : cmd :=
  modify (set_reconnecting false) ;;
  cond isConnected skip connect.

Definition startKeepAlive : cmd :=
  fresh (fun h =>
    modify (fun s => set_activeIntervals (activeIntervals s ++ [h]) s) ;;
    modify (set_keepAliveInterval (Some h)) ;;
    emit (SetInterval h 60000)).

(** The callback passed to [setInterval] in [startKeepAlive];
    [send_ok] tells whether [client.send] returns or throws. *)
Definition keepAlive_callback (send_ok : bool) : cmd :=
  fun s =>
    match isConnected s, client s with
    | true, Some c =>
        if send_ok then emit (Send c (js "PING")) s
        else (modify (set_isConnected false) ;; attemptReconnect) s
    | _, _ =>
        if negb (isConnected s) && (reconnectAttempts s <? maxReconnectAttempts)
        then attemptReconnect s
        else skip s
    end.

Definition resetAndReconnect : cmd :=
  modify (set_reconnectAttempts 0) ;;
  modify (set_reconnecting false) ;;
  disconnect ;;
  setTimeout ResetTimer 2000.

(** [postMessage]: [active] is the verdict of [isConnectionActive()]
    on the transport, [say_ok] whether [client.say] returns. *)
Definition postMessage (active say_ok : bool) : cmd :=
  fun s =>
    match client s, isConnected s && active with
    | Some c, true =>
        if say_ok then emit (Say c) s
        else (modify (set_isConnected false) ;; attemptReconnect) s
    | _, _ => skip s
    end.

(** *** Handlers installed by [setupEventHandlers] *)

Inductive client_event : Type :=
| Registered | Join | Error | Close | Disconnect | Message | Ping | Pong.

Definition on (e : client_event) (c : nat) : cmd :=
  match e with
  | Registered =>
      modify (set_isConnected true) ;;
      modify (set_reconnectAttempts 0) ;;
      startKeepAlive
  | Error => modify (set_isConnected false)
  | Close =>
      modify (set_isConnected false) ;;
      stopKeepAlive ;;
      attemptReconnect
  | Disconnect =>
      modify (set_isConnected false) ;;
      stopKeepAlive
  | Ping => emit (Send c (js "PONG"))
  | Join | Message | Pong => skip
  end.

(** *** Steps *)

Inductive call : Type :=
| CallConnect
| CallDisconnect
| CallResetAndReconnect
| CallPostMessage (active say_ok : bool).

Inductive event : Type :=
| Call (c : call)                          (* a method called from outside *)
| ClientEvent (cid : nat) (e : client_event)
| TimeoutFires (h : nat)
| IntervalFires (h : nat) (send_ok : bool).

Definition find_timeout (h : nat) (l : list (nat * timeout_kind))
  : option timeout_kind :=
  match List.find (fun p => Nat.eqb h (fst p)) l with
  | Some p => Some (snd p)
  | None => None
  end.

Definition remove_timeout (h : nat) (l : list (nat * timeout_kind))
  : list (nat * timeout_kind) :=
  List.filter (fun p => negb (Nat.eqb h (fst p))) l.

Definition step (s : state) (e : event) : state * list action :=
  match e with
  | Call CallConnect => connect s
  | Call CallDisconnect => disconnect s
  | Call CallResetAndReconnect => resetAndReconnect s
  | Call (CallPostMessage active say_ok) => postMessage active say_ok s
  | ClientEvent cid e =>
      (* only the current client still has listeners *)
      match client s with
      | Some c => if Nat.eqb c cid then on e c s else (s, [])
      | None => (s, [])
      end
  | TimeoutFires h =>
      match find_timeout h (pendingTimeouts s) with
      | Some k =>
          (modify (fun s => set_pendingTimeouts
                              (remove_timeout h (pendingTimeouts s)) s) ;;
           match k with
           | ReconnectTimer => reconnect_callback
           | ResetTimer => connect
           end) s
      | None => (s, [])
      end
  | IntervalFires h send_ok =>
      if existsb (Nat.eqb h) (activeIntervals s)
      then keepAlive_callback send_ok s
      else (s, [])
  end.

Fixpoint run (s : state) (events : list event) : state * list action :=
  match events with
  | [] => (s, [])
  | e :: rest =>
      let '(s1, o1) := step s e in
      let '(s2, o2) := run s1 rest in
      (s2, o1 ++ o2)
  end.

(** *** Observations on logs and runs *)


Definition is_reconnect_schedule (a : action) : bool :=
  match a with SetTimeout _ ReconnectTimer _ => true | _ => false end.

Definition is_NewClient (a : action) : bool :=
  match a with NewClient _ => true | _ => false end.


(** [n] failed reconnect attempts in a row: the pending reconnect
    timer [h] fires and calls [connect()], then the client it created
    closes.  The identities are those the model allocates: client 0
    and keep-alive handle 1 first, then timer [2k] and client [2k+1]. *)
Fixpoint failed_attempts (n : nat) (h : nat) : list event :=
  match n with
  | O => []
  | S n =>
      TimeoutFires h :: ClientEvent (S h) Close
        :: failed_attempts n (S (S h))
  end.


End IRC.

(** ** Vocabulary of the statements *)

(** A message of 281 code units: 279 letters, a space, a letter. *)
Definition long_message : jsstring :=
  repeat 0x61%N 279 ++ js " b".

(** Every stored array has at most [maxRequests] entries. *)
Definition window_bounded (maxRequests : Z)
    (requests : gmap jsstring (list Z)) : Prop :=
  forall key l, requests !! key = Some l -> Z.of_nat (length l) <= maxRequests.

(** Every stored array is in non-decreasing order and holds no reading
    later than [last]. *)
Definition window_ordered (last : Z)
    (requests : gmap jsstring (list Z)) : Prop :=
  forall key l, requests !! key = Some l ->
    Sorted Z.le l /\ Forall (fun t => t <= last) l.

(** The clock readings of successive calls never go back, [last] being
    the reading before the first of them. *)
Fixpoint clock_monotone (last : Z) (calls : list (jsstring * Z)) : Prop :=
  match calls with
  | [] => True
  | (_, now) :: rest => last <= now /\ clock_monotone now rest
  end.

Fixpoint last_reading (last : Z) (calls : list (jsstring * Z)) : Z :=
  match calls with
  | [] => last
  | (_, now) :: rest => last_reading now rest
  end.


Definition is_NetConnect (op : Nostr.net_op) : bool :=
  match op with Nostr.NetConnect _ => true | _ => false end.

(** The number of endpoints a publish contacted. *)
Definition attempted (ops : list Nostr.net_op) : nat :=
  length (List.filter is_NetConnect ops).



(** The two tags written in [publishMessage]. *)
Definition fixed_tags : list (list jsstring) :=
  [[js "t"; js "sirlibre"]; [js "t"; js "librerelaybot"]].

(** A bridge after [_initializeNostrClient()], as [start()] leaves it
    before any IRC message can arrive. *)
Definition started (env : Bridge.Env) : Bridge.t :=
  Bridge._initializeNostrClient (Bridge.new_Bridge env).

(** No variable set: channel [#SirLibre], target [LibreRelayBot], the
    five default relays, live mode. *)
Definition env_default : Bridge.Env :=
  {| Bridge.IRC_CHANNEL := None; Bridge.TARGET_BOT := None;
     Bridge.TEST_MODE := None; Bridge.NOSTR_RELAYS := None |}.

Definition env_test_mode : Bridge.Env :=
  {| Bridge.IRC_CHANNEL := None; Bridge.TARGET_BOT := None;
     Bridge.TEST_MODE := Some (js "true"); Bridge.NOSTR_RELAYS := None |}.

(** Another channel and another target sender. *)
Definition env_bowl : Bridge.Env :=
  {| Bridge.IRC_CHANNEL := Some (js "#BowlAfterBowl");
     Bridge.TARGET_BOT := Some (js "BoostAfterBoost");
     Bridge.TEST_MODE := None; Bridge.NOSTR_RELAYS := None |}.

Definition all_accept : jsstring -> Nostr.relay_behaviour :=
  fun _ => Nostr.Accepts.

(** Two of the default relays fail, one at connection and one at
    publication. *)
Definition two_fail : jsstring -> Nostr.relay_behaviour :=
  fun url =>
    if Bridge.jsstring_eqb url (js "wss://relay.damus.io") then Nostr.ConnectFails
    else if Bridge.jsstring_eqb url (js "wss://nostr.mom") then Nostr.PublishFails
    else Nostr.Accepts.

Definition noon : Bridge.Clock :=
  {| Bridge.at_activity := 1752580800000;
     Bridge.at_rateLimiter := 1752580800000;
     Bridge.at_publish := 1752580800002 |}.

(** The connection is lost and [disconnect()] is called while the
    reconnect delay is running. *)
Definition disconnect_during_delay : list IRC.event :=
  [IRC.Call IRC.CallConnect; IRC.ClientEvent 0 IRC.Registered;
   IRC.ClientEvent 0 IRC.Close; IRC.Call IRC.CallDisconnect].






(** ** Configuration parsing and validation *)

Module ConfigParse.

(** The value of a code unit as a digit in [radix], letters standing
    for 10 to 35 in either case. *)
Definition digit_value (radix : Z) (c : N) : option Z :=
  let v :=
    if ((0x30 <=? c) && (c <=? 0x39))%N then Some (Z.of_N c - 0x30)
    else if ((0x61 <=? c) && (c <=? 0x7A))%N then Some (Z.of_N c - 0x61 + 10)
    else if ((0x41 <=? c) && (c <=? 0x5A))%N then Some (Z.of_N c - 0x41 + 10)
    else None in
  match v with
  | Some d => if d <? radix then Some d else None
  | None => None
  end.

(** The value of the longest prefix of [s] made of digits of [radix];
    [acc] is the value read so far, [None] while no digit was read. *)
Fixpoint digits_prefix (radix : Z) (s : jsstring) (acc : option Z) : option Z :=
  match s with
  | [] => acc
  | c :: rest =>
      match digit_value radix c with
      | Some d => digits_prefix radix rest (Some (radix * default 0 acc + d))
      | None => acc
      end
  end.

(** [parseInt(string)] without a radix, on the string an environment
    variable holds: leading white space is skipped, a sign is read, a
    [0x] or [0X] prefix selects base 16, and the longest prefix of
    digits is converted; [None] is [NaN].  The result is the
    mathematical integer: the Number that JavaScript returns is that
    integer rounded, and rounding changes no comparison with 1 or
    65535, the only use made of it. *)
Definition parseInt_string (s : jsstring) : option Z :=
  let s := Security.trimStart s in
  let '(sign, s) :=
    match s with
    | 0x2D%N :: rest => (-1, rest)
    | 0x2B%N :: rest => (1, rest)
    | _ => (1, s)
    end in
  let '(radix, s) :=
    match s with
    | 0x30%N :: 0x78%N :: rest => (16, rest)
    | 0x30%N :: 0x58%N :: rest => (16, rest)
    | _ => (10, s)
    end in
  match digits_prefix radix s None with
  | Some v => Some (sign * v)
  | None => None
  end.

(** [parseInt(value)] for [value = process.env.X]: an unset variable is
    [undefined], whose string form starts with no digit. *)
Definition parseInt (value : option jsstring) : option Z :=
  match value with
  | Some s => parseInt_string s
  | None => None
  end.

(** [parsePort(value)]; [None] is [null]. *)
Definition parsePort (value : option jsstring) : option Z :=
  match parseInt value with
  | None => None
  | Some port => if (port <? 1) || (port >? 65535) then None else Some port
  end.

(** [this.parsePort(process.env.X) || fallback]: a port that was
    accepted is at least 1, hence truthy. *)
Definition port_or (value : option jsstring) (fallback : Z) : Z :=
  match parsePort value with
  | Some port => if port =? 0 then fallback else port
  | None => fallback
  end.

Definition irc_port (IRC_PORT : option jsstring) : Z := port_or IRC_PORT 6667.
Definition app_port (PORT : option jsstring) : Z := port_or PORT 3336.

(** [s.startsWith(prefix)]. *)
Definition startsWith (s prefix : jsstring) : bool :=
  bool_decide (take (length prefix) s = prefix).

Definition nsec_required : jsstring :=
  js "NOSTR_NSEC is required and must be a valid nsec key".
Definition nsec_format : jsstring :=
  js "NOSTR_NSEC must be a valid nsec1 format".

(** [validate()], as a function of [process.env.NOSTR_NSEC].  For an
    unset variable [nsec?.startsWith(...)] is [undefined], so the second
    test succeeds before [nsec.length] is evaluated. *)
Definition validate (nsec : option jsstring) : list jsstring :=
  let errors := [] in
  let errors :=
    match nsec with
    | Some (c :: s) =>
        if Bridge.jsstring_eqb (c :: s) (js "your_nostr_private_key_here")
        then errors ++ [nsec_required] else errors
    | _ => errors ++ [nsec_required]
    end in
  let errors :=
    match nsec with
    | Some s =>
        if negb (startsWith s (js "nsec1")) || negb (Nat.eqb (length s) 63)
        then errors ++ [nsec_format] else errors
    | None => errors ++ [nsec_format]
    end in
  errors.

End ConfigParse.

(** ** The logger's files

    The file system is a finite map from file names to contents, a
    content being the bytes of the file.  The calls of [fs] used by the
    logger are total on it except where the code itself provides for
    the failure (a missing file). *)

Module Logger.

Definition logFile : jsstring := js "libre-relay-bot.log".
Definition maxLogSize : Z := 1024 * 1024.
Definition maxLogFiles : nat := 5.

Fixpoint uint_units (d : Decimal.uint) : jsstring :=
  match d with
  | Decimal.Nil => []
  | Decimal.D0 d => 0x30%N :: uint_units d
  | Decimal.D1 d => 0x31%N :: uint_units d
  | Decimal.D2 d => 0x32%N :: uint_units d
  | Decimal.D3 d => 0x33%N :: uint_units d
  | Decimal.D4 d => 0x34%N :: uint_units d
  | Decimal.D5 d => 0x35%N :: uint_units d
  | Decimal.D6 d => 0x36%N :: uint_units d
  | Decimal.D7 d => 0x37%N :: uint_units d
  | Decimal.D8 d => 0x38%N :: uint_units d
  | Decimal.D9 d => 0x39%N :: uint_units d
  end.

(** The template [`${this.logFile}.${i}`]. *)
Definition numbered (i : nat) : jsstring :=
  logFile ++ js "." ++ uint_units (Nat.to_uint i).

Definition appendFileSync (file : jsstring) (data : list N)
    (fs : gmap jsstring (list N)) : gmap jsstring (list N) :=
  <[file := default [] (fs !! file) ++ data]> fs.

Definition existsSync (file : jsstring) (fs : gmap jsstring (list N)) : bool :=
  match fs !! file with Some _ => true | None => false end.

(** [fs.renameSync(oldFile, newFile)] for an existing [oldFile]: an
    existing [newFile] is replaced. *)
Definition renameSync (oldFile newFile : jsstring)
    (fs : gmap jsstring (list N)) : gmap jsstring (list N) :=
  match fs !! oldFile with
  | Some content => <[newFile := content]> (delete oldFile fs)
  | None => fs
  end.

(** The loop [for (let i = this.maxLogFiles - 1; i > 0; i--)] of
    [rotateLogsIfNeeded], entered with [i]. *)
Fixpoint shift_generations (i : nat) (fs : gmap jsstring (list N))
  : gmap jsstring (list N) :=
  match i with
  | O => fs
  | S j =>
      let oldFile := numbered i in
      let newFile := numbered (i + 1) in
      let fs := if existsSync oldFile fs then renameSync oldFile newFile fs else fs in
      shift_generations j fs
  end.

(** [rotateLogsIfNeeded()]: [statSync] throws for a missing file and the
    [catch] leaves everything as it is. *)
Definition rotateLogsIfNeeded (fs : gmap jsstring (list N))
  : gmap jsstring (list N) :=
  match fs !! logFile with
  | None => fs
  | Some content =>
      if Z.of_nat (length content) >? maxLogSize then
        let fs := shift_generations (maxLogFiles - 1) fs in
        let fs := renameSync logFile (numbered 1) fs in
        <[logFile := []]> fs
      else fs
  end.

(** [writeToFile(logEntry)], [logLine] being the bytes of
    [JSON.stringify(logEntry) + '\n']. *)
Definition writeToFile (logLine : list N) (fs : gmap jsstring (list N))
  : gmap jsstring (list N) :=
  rotateLogsIfNeeded (appendFileSync logFile logLine fs).

(** [clearLogs()]. *)
Definition clearLogs (fs : gmap jsstring (list N)) : gmap jsstring (list N) :=
  if existsSync logFile fs then delete logFile fs else fs.

End Logger.

(** ** The health endpoint *)

Module Health.

(** The status code and the [connected] field answered by
    [GET /health]; [ircClient] and [nostrClient] are the fields of the
    bridge, null before initialisation. *)
Definition health (ircClient : option IRC.state)
    (nostrClient : option Nostr.NostrClient) : Z * bool :=
  let isConnected :=
    match ircClient with Some c => IRC.isConnected c | None => false end in
  let healthy :=
    isConnected && match nostrClient with Some _ => true | None => false end in
  (if healthy then 200 else 503, isConnected).

End Health.

(** ** Vocabulary of the further statements *)

(** One turn of the loop of [rotateLogsIfNeeded]: [oldFile] moves to
    [newFile] if it exists. *)
Definition move_if_exists (oldFile newFile : jsstring)
    (fs : gmap jsstring (list N)) : gmap jsstring (list N) :=
  if Logger.existsSync oldFile fs then Logger.renameSync oldFile newFile fs
  else fs.

Definition is_blank (c : N) : bool :=
  Security.is_control c || Security.is_whitespace c.

Definition is_comma (c : N) : bool := (c =? 0x2C)%N.

Definition is_decimal_digit (c : N) : bool := ((0x30 <=? c) && (c <=? 0x39))%N.

(** A natural number written in decimal, as [String(n)] writes it. *)
Definition decimal (n : nat) : jsstring := Logger.uint_units (Nat.to_uint n).

(** The verdicts a run gave to the calls of [key]. *)
Fixpoint verdicts_of (key : jsstring) (calls : list (jsstring * Z))
    (verdicts : list bool) : list bool :=
  match calls, verdicts with
  | (k, _) :: calls, ok :: verdicts =>
      if Bridge.jsstring_eqb k key then ok :: verdicts_of key calls verdicts
      else verdicts_of key calls verdicts
  | _, _ => []
  end.

Definition calls_of (key : jsstring) (calls : list (jsstring * Z))
  : list (jsstring * Z) :=
  List.filter (fun call => Bridge.jsstring_eqb (fst call) key) calls.

(** The readings of the accepted requests of [key], oldest first. *)
Definition times_of (key : jsstring) (accepted : list (jsstring * Z)) : list Z :=
  List.map snd (calls_of key accepted).

(** How many accepted requests of [key] are not older than [windowMs]
    at [now]. *)
Definition in_window (windowMs now : Z) (key : jsstring)
    (accepted : list (jsstring * Z)) : nat :=
  length (List.filter (fun t => now - windowMs <=? t) (times_of key accepted)).

(** A sliding-window limiter told declaratively: a request is accepted
    when fewer than [maxRequests] accepted requests of the same key lie
    in the window that ends at it. *)
Fixpoint sliding_window (maxRequests windowMs : Z)
    (accepted calls : list (jsstring * Z)) : list bool :=
  match calls with
  | [] => []
  | (key, now) :: rest =>
      let ok := Z.of_nat (in_window windowMs now key accepted) <? maxRequests in
      ok :: sliding_window maxRequests windowMs
              (if ok then accepted ++ [(key, now)] else accepted) rest
  end.

(** The stored arrays are what is left of the accepted requests: for
    every key the accepted readings are the stored ones preceded by
    readings that have left the window for good. *)
Definition window_tracks (windowMs last : Z) (accepted : list (jsstring * Z))
    (requests : gmap jsstring (list Z)) : Prop :=
  forall key, exists dropped,
    times_of key accepted = dropped ++ default [] (requests !! key)
    /\ Forall (fun t => t < last - windowMs) dropped
    /\ Sorted Z.le (default [] (requests !! key))
    /\ Forall (fun t => t <= last) (default [] (requests !! key)).






(** What the message path keeps true of the bridge: only the target
    sender has a rate-limit window, of at most five readings, and no
    more posts are counted than messages were monitored. *)
Definition accounted (this : Bridge.t) : Prop :=
  (forall key, key <> Bridge.app_targetBot (Bridge.config this) ->
     Bridge.rateLimiter this !! key = None)
  /\ window_bounded 5 (Bridge.rateLimiter this)
  /\ (Bridge.successfulPosts (Bridge.stats this)
      + Bridge.failedPosts (Bridge.stats this)
      <= Bridge.messagesMonitored (Bridge.stats this))%nat.

(** One IRC message as the handler receives it. *)
Record Delivery : Type := {
  d_clock : Bridge.Clock;
  d_from : jsstring;
  d_to : jsstring;
  d_message : value
}.

(** The bridge after a sequence of messages, each handled to the end
    before the next. *)
Fixpoint handle_all (this : Bridge.t) (net : jsstring -> Nostr.relay_behaviour)
    (deliveries : list Delivery) : Bridge.t :=
  match deliveries with
  | [] => this
  | d :: rest =>
      handle_all
        (Bridge.bridge
           (Bridge._handleIRCMessage this net (d_clock d) (d_from d) (d_to d)
              (d_message d)))
        net rest
  end.

Definition is_ClientDisconnect (a : IRC.action) : bool :=
  match a with IRC.ClientDisconnect _ => true | _ => false end.

(** 1 when the object holds a client, 0 when [this.client] is null. *)
Definition live (s : IRC.state) : nat :=
  match IRC.client s with Some _ => 1 | None => 0 end.

Definition count {A} (p : A -> bool) (l : list A) : nat :=
  length (List.filter p l).

(** What every state reached from a new [IRCClient] satisfies. *)
Definition well_formed (s : IRC.state) : Prop :=
  0 <= IRC.reconnectAttempts s <= IRC.maxReconnectAttempts
  /\ (IRC.isConnected s = true -> IRC.client s <> None)
  /\ (IRC.reconnecting s = true ->
      exists h, In (h, IRC.ReconnectTimer) (IRC.pendingTimeouts s)).

(** Events under which the counter is never reset. *)
Definition no_reset (e : IRC.event) : bool :=
  match e with
  | IRC.Call IRC.CallResetAndReconnect => false
  | IRC.ClientEvent _ IRC.Registered => false
  | _ => true
  end.

(** ** Properties of sanitization *)

Section SanitizeFacts.
Import Security.

Lemma trimStart_In c s : In c (trimStart s) -> In c s.
Proof.
  induction s as [|a s IH]; simpl; [tauto|].
  destruct (is_whitespace a); simpl; tauto.
Qed.

Lemma trimEnd_In c s : In c (trimEnd s) -> In c s.
Proof.
  unfold trimEnd. intros H. apply in_rev in H.
  apply trimStart_In in H. now apply in_rev.
Qed.

Lemma take_In (c : N) n (s : jsstring) : In c (take n s) -> In c s.
Proof.
  revert n; induction s as [|a s IH]; intros [|n]; simpl; try tauto.
  intros [H|H]; [now left | right; eauto].
Qed.

Lemma sanitize_string_no_control c s :
  In c (sanitize_string s) -> is_control c = false.
Proof.
  unfold sanitize_string, substring0, trim, remove_control. intros H.
  apply take_In, trimEnd_In, trimStart_In, filter_In in H.
  destruct H as [_ H]. now apply negb_true_iff in H.
Qed.

Lemma remove_control_id s :
  (forall c, In c s -> is_control c = false) -> remove_control s = s.
Proof.
  unfold remove_control. induction s as [|a s IH]; intros H; simpl; [easy|].
  rewrite (H a (or_introl eq_refl)). simpl. f_equal. apply IH.
  intros c Hc. apply H. now right.
Qed.

Lemma trimStart_head_clean s : head_clean (trimStart s) = true.
Proof.
  induction s as [|a s IH]; simpl; [easy|].
  destruct (is_whitespace a) eqn:E; [exact IH|]. simpl. now rewrite E.
Qed.

Lemma trimStart_id s : head_clean s = true -> trimStart s = s.
Proof.
  destruct s as [|a s]; simpl; [easy|].
  intros H. apply negb_true_iff in H. now rewrite H.
Qed.

Lemma trimEnd_snoc s c :
  trimEnd (s ++ [c]) = if is_whitespace c then trimEnd s else s ++ [c].
Proof.
  unfold trimEnd. rewrite rev_app_distr. simpl.
  destruct (is_whitespace c); [easy|].
  simpl. now rewrite rev_involutive.
Qed.

Lemma head_clean_app_l s t : head_clean (s ++ t) = true -> head_clean s = true.
Proof. destruct s; simpl; auto. Qed.

Lemma trimEnd_head_clean s : head_clean s = true -> head_clean (trimEnd s) = true.
Proof.
  induction s as [|c s IH] using rev_ind; [easy|].
  intros H. rewrite trimEnd_snoc.
  destruct (is_whitespace c); [|exact H].
  apply IH. eapply head_clean_app_l. exact H.
Qed.

Lemma take_head_clean n s : head_clean s = true -> head_clean (take n s) = true.
Proof. destruct s, n; simpl; auto. Qed.

Lemma trimEnd_length s : (length (trimEnd s) <= length s)%nat.
Proof.
  unfold trimEnd. rewrite length_rev.
  rewrite <- (length_rev s).
  generalize (rev s). intros l.
  induction l as [|a l IH]; simpl; [lia|].
  destruct (is_whitespace a); simpl; lia.
Qed.

Lemma sanitize_string_length s : (length (sanitize_string s) <= 280)%nat.
Proof. unfold sanitize_string, substring0. rewrite length_take. lia. Qed.

Lemma sanitize_string_head_clean s : head_clean (sanitize_string s) = true.
Proof.
  unfold sanitize_string, substring0, trim.
  apply take_head_clean, trimEnd_head_clean, trimStart_head_clean.
Qed.

(** A second pass only removes the white space that truncation left at
    the end of the first result. *)
Lemma sanitize_string_twice s :
  sanitize_string (sanitize_string s) = trimEnd (sanitize_string s).
Proof.
  set (y := sanitize_string s).
  unfold sanitize_string at 1. fold y.
  rewrite (remove_control_id y)
    by (intros c; apply sanitize_string_no_control).
  unfold trim. rewrite (trimStart_id y) by apply sanitize_string_head_clean.
  unfold substring0. apply take_ge.
  pose proof (trimEnd_length y). pose proof (sanitize_string_length s).
  fold y in H0. lia.
Qed.

Lemma trimEnd_id s : ends_with_whitespace s = false -> trimEnd s = s.
Proof.
  unfold ends_with_whitespace, trimEnd.
  destruct (rev s) as [|c r] eqn:E; intros H.
  - simpl. rewrite <- (rev_involutive s), E. reflexivity.
  - simpl. rewrite H. rewrite <- E. apply rev_involutive.
Qed.

Lemma trimEnd_fixed s : trimEnd s = s -> ends_with_whitespace s = false.
Proof.
  induction s as [|c s _] using rev_ind; [easy|].
  rewrite trimEnd_snoc. unfold ends_with_whitespace.
  rewrite rev_app_distr. simpl.
  destruct (is_whitespace c); [|easy].
  intros H. pose proof (trimEnd_length s) as L.
  rewrite H, length_app in L. simpl in L. lia.
Qed.

End SanitizeFacts.

(** The second pass is the identity exactly when the first result does
    not end in white space. *)
Lemma sanitize_string_fixed_iff s :
  Security.sanitize_string (Security.sanitize_string s) = Security.sanitize_string s
  <-> Security.ends_with_whitespace (Security.sanitize_string s) = false.
Proof.
  rewrite sanitize_string_twice. split.
  - apply trimEnd_fixed.
  - apply trimEnd_id.
Qed.

Lemma trimEnd_clean_end s :
  Security.ends_with_whitespace (Security.trimEnd s) = false.
Proof.
  unfold Security.ends_with_whitespace, Security.trimEnd.
  rewrite rev_involutive.
  pose proof (trimStart_head_clean (rev s)) as H.
  destruct (Security.trimStart (rev s)); [reflexivity|].
  simpl in H. now apply negb_true_iff in H.
Qed.

(** Truncation is the only source of the difference: a text that fits
    in 280 code units once stripped and trimmed is a fixed point. *)
Lemma sanitize_string_short_fixed s :
  (length (Security.trim (Security.remove_control s)) <= 280)%nat ->
  Security.sanitize_string (Security.sanitize_string s)
  = Security.sanitize_string s.
Proof.
  intros L. apply sanitize_string_fixed_iff.
  unfold Security.sanitize_string, Security.substring0.
  rewrite take_ge by exact L. apply trimEnd_clean_end.
Qed.

Example sanitize_strips_and_trims :
  Security.sanitizeMessage
    (VString ([0x20; 0x07]%N ++ js "boost 21 sats" ++ [0x0A; 0x20]%N))
  = js "boost 21 sats".
Proof. reflexivity. Qed.

Example sanitize_truncates :
  length (Security.sanitizeMessage (VString long_message)) = 280%nat.
Proof. reflexivity. Qed.

(** C3, as stated, fails: truncation can expose a trailing space, which
    the second pass trims away (280 code units, then 279). *)
Lemma sanitizeMessage_not_idempotent :
  Security.sanitizeMessage
    (VString (Security.sanitizeMessage (VString long_message)))
  <> Security.sanitizeMessage (VString long_message).
Proof.
  intros H. apply (f_equal (@length N)) in H.
  vm_compute in H. discriminate H.
Qed.

(** C3 (amended): sanitizing twice gives the same string as sanitizing
    once for every input whose sanitized form does not end in a
    white-space character. *)
Theorem sanitizeMessage_idempotent_without_trailing_space (x : value) :
  Security.ends_with_whitespace (Security.sanitizeMessage x) = false ->
  Security.sanitizeMessage (VString (Security.sanitizeMessage x))
  = Security.sanitizeMessage x.
Proof.
  destruct x as [| |b|n|s|r]; simpl; try reflexivity.
  intros H. now apply sanitize_string_fixed_iff.
Qed.

Lemma sanitizeMessage_idempotent_without_trailing_space_witness :
  Security.ends_with_whitespace
    (Security.sanitizeMessage (VString (js "  boost received  "))) = false
  /\ Security.sanitizeMessage
       (VString (Security.sanitizeMessage (VString (js "  boost received  "))))
     = Security.sanitizeMessage (VString (js "  boost received  ")).
Proof.
  split; [reflexivity|].
  apply (sanitizeMessage_idempotent_without_trailing_space
           (VString (js "  boost received  "))).
  reflexivity.
Defined.

(** ** Properties of the rate limiter *)

Section RateLimiterFacts.
Import Security.

Implicit Types (requests : gmap jsstring (list Z)) (key : jsstring).

(** The entry is created before it is read, so the limiter acts on the
    stored array, or on an empty one for a new key. *)
Lemma rateLimiter_unfold maxRequests windowMs requests key now :
  rateLimiter maxRequests windowMs requests key now =
  let userRequests :=
    shift_old (now - windowMs) (default [] (requests !! key)) in
  if Z.of_nat (length userRequests) >=? maxRequests
  then (false, <[key := userRequests]> requests)
  else (true, <[key := userRequests ++ [now]]> requests).
Proof.
  unfold rateLimiter. destruct (requests !! key) as [l|] eqn:E.
  - rewrite E. reflexivity.
  - rewrite lookup_insert_eq. simpl.
    destruct (_ >=? _); now rewrite insert_insert_eq.
Qed.

Lemma shift_old_keep w t l : w <= t -> shift_old w (t :: l) = t :: l.
Proof. intros H. simpl. destruct (Z.ltb_spec t w); [lia | reflexivity]. Qed.

Lemma shift_old_drop w t l : t < w -> shift_old w (t :: l) = shift_old w l.
Proof. intros H. simpl. destruct (Z.ltb_spec t w); [reflexivity | lia]. Qed.

Lemma shift_old_length w l : (length (shift_old w l) <= length l)%nat.
Proof.
  induction l as [|t l IH]; simpl; [lia|].
  destruct (t <? w); simpl; lia.
Qed.

Lemma shift_old_Forall (P : Z -> Prop) w l :
  Forall P l -> Forall P (shift_old w l).
Proof.
  induction 1 as [|t l Ht Hl IH]; simpl; [constructor|].
  destruct (t <? w); [exact IH | now constructor].
Qed.

Lemma shift_old_Sorted w l : Sorted Z.le l -> Sorted Z.le (shift_old w l).
Proof.
  induction 1 as [|t l Hl IH Ht]; simpl; [constructor|].
  destruct (t <? w); [exact IH | now constructor].
Qed.

(** A request inside the window of the oldest stored one, with room
    left, is accepted and recorded after the stored ones. *)
Lemma rateLimiter_accepts maxRequests windowMs requests key now t l :
  requests !! key = Some (t :: l) ->
  now <= t + windowMs ->
  Z.of_nat (length (t :: l)) < maxRequests ->
  rateLimiter maxRequests windowMs requests key now
  = (true, <[key := (t :: l) ++ [now]]> requests).
Proof.
  intros E Hw Hn. rewrite rateLimiter_unfold, E. cbn [default id].
  rewrite shift_old_keep by lia. cbv zeta.
  destruct (Z.geb_spec (Z.of_nat (length (t :: l))) maxRequests); [lia|].
  reflexivity.
Qed.

Lemma rateLimiter_accepts_first maxRequests windowMs requests key now :
  requests !! key = None ->
  0 < maxRequests ->
  rateLimiter maxRequests windowMs requests key now
  = (true, <[key := [now]]> requests).
Proof.
  intros E Hn. rewrite rateLimiter_unfold, E. simpl.
  destruct (Z.geb_spec (Z.of_nat 0) maxRequests); [lia | reflexivity].
Qed.

(** A request inside the window of the oldest stored one, with the
    array full, is rejected and leaves the array as it is. *)
Lemma rateLimiter_rejects maxRequests windowMs requests key now t l :
  requests !! key = Some (t :: l) ->
  now <= t + windowMs ->
  maxRequests <= Z.of_nat (length (t :: l)) ->
  rateLimiter maxRequests windowMs requests key now = (false, requests).
Proof.
  intros E Hw Hn. rewrite rateLimiter_unfold, E. cbn [default id].
  rewrite shift_old_keep by lia. cbv zeta.
  destruct (Z.geb_spec (Z.of_nat (length (t :: l))) maxRequests); [|lia].
  now rewrite insert_id.
Qed.

(** Once the oldest entry has left the window a full array has room
    again. *)
Lemma rateLimiter_accepts_after_window maxRequests windowMs requests key now t l :
  requests !! key = Some (t :: l) ->
  t + windowMs < now ->
  Z.of_nat (length (t :: l)) <= maxRequests ->
  rateLimiter maxRequests windowMs requests key now
  = (true, <[key := shift_old (now - windowMs) l ++ [now]]> requests).
Proof.
  intros E Hw Hn. rewrite rateLimiter_unfold, E. cbn [default id].
  rewrite shift_old_drop by lia. cbv zeta.
  pose proof (shift_old_length (now - windowMs) l) as L.
  simpl length in Hn.
  destruct (Z.geb_spec (Z.of_nat (length (shift_old (now - windowMs) l)))
              maxRequests); [lia | reflexivity].
Qed.

End RateLimiterFacts.

(** C4: with five requests per 60000 ms, a sender not seen before sends
    six messages, the last five within 60 s of the first: the first
    five are accepted and recorded in order, the sixth is rejected and
    records nothing; a message arriving after the first one has left
    the window (61 s after it, for instance) is accepted again, the
    expired entries being dropped and the new reading recorded. *)
Theorem rateLimiter_sixth_rejected_then_recovers
    (requests : gmap jsstring (list Z)) (key : jsstring)
    (t1 t2 t3 t4 t5 t6 later : Z) :
  requests !! key = None ->
  t2 <= t1 + 60000 -> t3 <= t1 + 60000 -> t4 <= t1 + 60000 ->
  t5 <= t1 + 60000 -> t6 <= t1 + 60000 ->
  t1 + 60000 < later ->
  let five := [(key, t1); (key, t2); (key, t3); (key, t4); (key, t5)] in
  let after5 := snd (Security.rateLimiter_run 5 60000 requests five) in
  let after6 := snd (Security.rateLimiter_run 5 60000 requests (five ++ [(key, t6)])) in
  fst (Security.rateLimiter_run 5 60000 requests (five ++ [(key, t6)]))
    = [true; true; true; true; true; false]
  /\ after5 !! key = Some [t1; t2; t3; t4; t5]
  /\ after6 = after5
  /\ Security.rateLimiter 5 60000 after6 key later
     = (true,
        <[key := Security.shift_old (later - 60000) [t2; t3; t4; t5] ++ [later]]>
          after6).
Proof.
  intros Hnew H2 H3 H4 H5 H6 Hl five after5 after6.
  subst five after5 after6. cbn [app Security.rateLimiter_run].
  rewrite (rateLimiter_accepts_first 5 60000 requests key t1 Hnew) by lia.
  erewrite (rateLimiter_accepts 5 60000 _ key t2)
    by first [apply lookup_insert_eq | simpl; lia].
  rewrite insert_insert_eq.
  erewrite (rateLimiter_accepts 5 60000 _ key t3)
    by first [apply lookup_insert_eq | simpl; lia].
  rewrite insert_insert_eq.
  erewrite (rateLimiter_accepts 5 60000 _ key t4)
    by first [apply lookup_insert_eq | simpl; lia].
  rewrite insert_insert_eq.
  erewrite (rateLimiter_accepts 5 60000 _ key t5)
    by first [apply lookup_insert_eq | simpl; lia].
  rewrite insert_insert_eq.
  erewrite (rateLimiter_rejects 5 60000 _ key t6)
    by first [apply lookup_insert_eq | simpl; lia].
  cbn [fst snd app]. repeat split.
  - apply lookup_insert_eq.
  - eapply rateLimiter_accepts_after_window;
      first [apply lookup_insert_eq | simpl; lia].
Qed.

Lemma rateLimiter_sixth_rejected_then_recovers_witness :
  let five := [(js "LibreRelayBot", 0); (js "LibreRelayBot", 1000);
               (js "LibreRelayBot", 2000); (js "LibreRelayBot", 3000);
               (js "LibreRelayBot", 4000)] in
  let after5 := snd (Security.rateLimiter_run 5 60000 ∅ five) in
  let after6 :=
    snd (Security.rateLimiter_run 5 60000 ∅
           (five ++ [(js "LibreRelayBot", 60000)])) in
  fst (Security.rateLimiter_run 5 60000 ∅
         (five ++ [(js "LibreRelayBot", 60000)]))
    = [true; true; true; true; true; false]
  /\ after5 !! js "LibreRelayBot" = Some [0; 1000; 2000; 3000; 4000]
  /\ after6 = after5
  /\ Security.rateLimiter 5 60000 after6 (js "LibreRelayBot") 61000
     = (true,
        <[js "LibreRelayBot" :=
            Security.shift_old (61000 - 60000) [1000; 2000; 3000; 4000] ++ [61000]]>
          after6).
Proof.
  apply (rateLimiter_sixth_rejected_then_recovers
           ∅ (js "LibreRelayBot") 0 1000 2000 3000 4000 60000 61000);
    first [apply lookup_empty | lia].
Defined.

Section WindowInvariant.
Import Security.

Variables (maxRequests windowMs : Z).
Hypothesis max_nonneg : 0 <= maxRequests.

Lemma Sorted_snoc (l : list Z) (now : Z) :
  Sorted Z.le l -> Forall (fun t => t <= now) l -> Sorted Z.le (l ++ [now]).
Proof.
  induction 1 as [|t l Hl IH Ht]; intros F; simpl.
  - repeat constructor.
  - apply Forall_cons_1 in F as [Hle F]. constructor; [now apply IH|].
    destruct Ht as [|u l Hu]; simpl; now constructor.
Qed.

Lemma window_bounded_step requests key now :
  window_bounded maxRequests requests ->
  window_bounded maxRequests
    (snd (rateLimiter maxRequests windowMs requests key now)).
Proof.
  intros B. rewrite rateLimiter_unfold. cbv zeta.
  set (stored := default [] (requests !! key)).
  assert (Z.of_nat (length stored) <= maxRequests) as Hs.
  { subst stored. destruct (requests !! key) as [l|] eqn:E; simpl.
    - exact (B key l E).
    - exact max_nonneg. }
  pose proof (shift_old_length (now - windowMs) stored) as L.
  destruct (Z.geb_spec (Z.of_nat (length (shift_old (now - windowMs) stored)))
              maxRequests) as [G|G];
    simpl; intros k l; rewrite lookup_insert; case_decide.
  - intros [= <-]. lia.
  - apply B.
  - intros [= <-]. rewrite length_app. simpl. lia.
  - apply B.
Qed.

Lemma window_ordered_step last requests key now :
  window_ordered last requests -> last <= now ->
  window_ordered now
    (snd (rateLimiter maxRequests windowMs requests key now)).
Proof.
  intros O Hle. rewrite rateLimiter_unfold. cbv zeta.
  set (stored := default [] (requests !! key)).
  assert (Sorted Z.le stored /\ Forall (fun t => t <= last) stored) as [Ss Fs].
  { subst stored. destruct (requests !! key) as [l|] eqn:E; simpl.
    - exact (O key l E).
    - split; constructor. }
  assert (forall l, Forall (fun t => t <= last) l -> Forall (fun t => t <= now) l)
    as Mono.
  { intros l F. eapply Forall_impl; [exact F|]. simpl. intros; lia. }
  pose proof (shift_old_Sorted (now - windowMs) stored Ss) as S'.
  pose proof (shift_old_Forall _ (now - windowMs) stored (Mono _ Fs)) as F'.
  destruct (_ >=? _); simpl; intros k l; rewrite lookup_insert; case_decide.
  - intros [= <-]. now split.
  - intros E. destruct (O k l E) as [? ?]. split; [easy | now apply Mono].
  - intros [= <-]. split.
    + now apply Sorted_snoc.
    + apply Forall_app. split; [exact F'|]. constructor; [lia | constructor].
  - intros E. destruct (O k l E) as [? ?]. split; [easy | now apply Mono].
Qed.

Lemma window_bounded_run calls requests :
  window_bounded maxRequests requests ->
  window_bounded maxRequests
    (snd (rateLimiter_run maxRequests windowMs requests calls)).
Proof.
  revert requests. induction calls as [|[key now] calls IH]; intros requests B.
  - exact B.
  - cbn [rateLimiter_run].
    pose proof (window_bounded_step requests key now B) as B1.
    destruct (rateLimiter maxRequests windowMs requests key now) as [ok m1].
    specialize (IH m1 B1).
    destruct (rateLimiter_run maxRequests windowMs m1 calls) as [oks m2].
    exact IH.
Qed.

Lemma window_ordered_run calls requests last :
  window_ordered last requests -> clock_monotone last calls ->
  window_ordered (last_reading last calls)
    (snd (rateLimiter_run maxRequests windowMs requests calls)).
Proof.
  revert requests last.
  induction calls as [|[key now] calls IH]; intros requests last O M.
  - exact O.
  - cbn [rateLimiter_run last_reading]. destruct M as [Hle M].
    pose proof (window_ordered_step last requests key now O Hle) as O1.
    destruct (rateLimiter maxRequests windowMs requests key now) as [ok m1].
    specialize (IH m1 now O1 M).
    destruct (rateLimiter_run maxRequests windowMs m1 calls) as [oks m2].
    exact IH.
Qed.

End WindowInvariant.

(** C10, as stated, fails: the order of a stored sequence is the order
    of the clock readings, and [Date.now()] may go back between two
    checks; a reading of 100 followed by a reading of 99 leaves the
    sequence [100; 99] for the sender. *)
Lemma rateLimiter_order_follows_the_clock :
  snd (Security.rateLimiter_run 5 60000 ∅
         [(js "LibreRelayBot", 100); (js "LibreRelayBot", 99)])
    !! js "LibreRelayBot" = Some [100; 99]
  /\ ~ Sorted Z.le [100; 99].
Proof.
  split.
  - vm_compute. reflexivity.
  - intros S. apply Sorted_inv in S as [_ H].
    apply HdRel_inv in H. lia.
Qed.

(** C10 (amended): every check of the rate limiter keeps, for every
    sender key, at most [maxRequests] stored timestamps, whatever the
    clock does; and as long as the clock readings of successive checks
    do not go back, every stored sequence stays in non-decreasing
    order.  Stated for any number of checks from any map that satisfies
    the invariant, the new limiter's empty map in particular. *)
Theorem rateLimiter_preserves_window_invariant
    (maxRequests windowMs : Z) (requests : gmap jsstring (list Z))
    (calls : list (jsstring * Z)) :
  0 <= maxRequests ->
  window_bounded maxRequests requests ->
  let final := snd (Security.rateLimiter_run maxRequests windowMs requests calls) in
  window_bounded maxRequests final
  /\ (forall last,
        window_ordered last requests -> clock_monotone last calls ->
        window_ordered (last_reading last calls) final).
Proof.
  intros Hmax B final. subst final. split.
  - now apply window_bounded_run.
  - intros last O M. now apply window_ordered_run.
Qed.

Lemma window_bounded_empty maxRequests : window_bounded maxRequests ∅.
Proof. intros key l E. rewrite lookup_empty in E. discriminate E. Qed.

Lemma window_ordered_empty last : window_ordered last ∅.
Proof. intros key l E. rewrite lookup_empty in E. discriminate E. Qed.

Lemma rateLimiter_preserves_window_invariant_witness :
  let calls := [(js "LibreRelayBot", 10); (js "LibreRelayBot", 20);
                (js "Other", 20); (js "LibreRelayBot", 70000)] in
  let final := snd (Security.rateLimiter_run 5 60000 ∅ calls) in
  (0 <= 5 /\ window_bounded 5 ∅)
  /\ window_bounded 5 final
  /\ (window_ordered 0 ∅ /\ clock_monotone 0 calls)
  /\ window_ordered 70000 final.
Proof.
  intros calls final.
  destruct (rateLimiter_preserves_window_invariant 5 60000 ∅ calls)
    as [B O]; [lia | apply window_bounded_empty |].
  assert (clock_monotone 0 calls) as M by (simpl; lia).
  pose proof (window_ordered_empty 0) as O0.
  split; [split; [lia | apply window_bounded_empty]|].
  split; [exact B|].
  split; [split; [exact O0 | exact M]|].
  exact (O 0 O0 M).
Defined.

(** ** Properties of the publisher *)

Section PublisherFacts.
Import Async Nostr.

Variable net : jsstring -> relay_behaviour.
Variable event : Event.





(** A connection that was opened is closed, whatever [publish] did. *)
Lemma publishToRelay_closes url :
  net url <> ConnectFails ->
  In (NetClose url) (snd (_publishToRelay net url event)).
Proof.
  unfold _publishToRelay, Relay_connect, relay_publish.
  destruct (net url); simpl; intuition congruence.
Qed.








End PublisherFacts.

(** C2, as stated, fails: in test mode with the five default relays the
    outcome reports no relay published to, not five. *)
Lemma publishMessage_test_mode_reports_zero :
  Nostr.publishMessage
    {| Nostr.relays := Bridge.default_relays; Nostr.testMode := true |}
    all_accept 1752580800000 (js "hello") []
  <> (Async.fulfilled
        {| Nostr.success := true;
           Nostr.published := length Bridge.default_relays;
           Nostr.failed := 0 |},
      []).
Proof. simpl. intros H. discriminate H. Qed.

(** C2 (amended): in test mode [publishMessage] performs no network
    operation and is fulfilled with the same kind of outcome as a real
    publish, reporting success with zero relays published to and zero
    failed, whatever the number of configured relays. *)
Theorem publishMessage_test_mode
    (this : Nostr.NostrClient) (net : jsstring -> Nostr.relay_behaviour)
    (now : Z) (content : jsstring) (tags : list (list jsstring)) :
  Nostr.testMode this = true ->
  Nostr.publishMessage this net now content tags
  = (Async.fulfilled
       {| Nostr.success := true; Nostr.published := 0; Nostr.failed := 0 |},
     []).
Proof. intros H. unfold Nostr.publishMessage. now rewrite H. Qed.

Lemma publishMessage_test_mode_witness :
  let this := {| Nostr.relays := Bridge.default_relays; Nostr.testMode := true |} in
  Nostr.testMode this = true
  /\ Nostr.publishMessage this two_fail 1752580800000 (js "hello") []
     = (Async.fulfilled
          {| Nostr.success := true; Nostr.published := 0; Nostr.failed := 0 |},
        []).
Proof.
  split; [reflexivity|].
  apply (publishMessage_test_mode
           {| Nostr.relays := Bridge.default_relays; Nostr.testMode := true |}).
  reflexivity.
Defined.



(** ** Properties of the message handler *)

Section HandlerFacts.
Import Bridge.

Variable net : jsstring -> Nostr.relay_behaviour.

Lemma jsstring_eqb_eq a b : jsstring_eqb a b = true <-> a = b.
Proof. unfold jsstring_eqb. apply bool_decide_eq_true. Qed.

(** What [_postToNostr] hands to the publisher. *)
Lemma postToNostr_posts this client now message :
  posts (_postToNostr this client net now message) =
  match Security.sanitizeMessage message with
  | [] => []
  | text => [Nostr.build_event now text []]
  end.
Proof.
  unfold _postToNostr.
  destruct (Security.sanitizeMessage message) as [|c text]; [reflexivity|].
  now destruct (Nostr.publishMessage client net now (c :: text) []).
Qed.

Lemma postToNostr_quiet this client now message :
  Security.sanitizeMessage message = [] ->
  network (_postToNostr this client net now message) = [].
Proof. unfold _postToNostr. now intros ->. Qed.

(** The handler, case by case. *)
Lemma handleIRCMessage_posts this clock from to message :
  posts (_handleIRCMessage this net clock from to message) =
  if jsstring_eqb from (app_targetBot (config this))
  then
    if fst (Security.rateLimiter 5 60000 (rateLimiter this) from
              (at_rateLimiter clock))
    then
      match nostrClient this, Security.sanitizeMessage message with
      | Some _, c :: text => [Nostr.build_event (at_publish clock) (c :: text) []]
      | _, _ => []
      end
    else []
  else [].
Proof.
  unfold _handleIRCMessage.
  destruct (jsstring_eqb from (app_targetBot (config this))); [|reflexivity].
  cbn [negb with_stats with_rateLimiter rateLimiter].
  destruct (Security.rateLimiter 5 60000 (rateLimiter this) from
              (at_rateLimiter clock)) as [[|] requests]; [|reflexivity].
  cbn [negb fst nostrClient with_rateLimiter with_stats].
  destruct (nostrClient this) as [client|]; [|reflexivity].
  rewrite postToNostr_posts.
  now destruct (Security.sanitizeMessage message).
Qed.

Lemma handleIRCMessage_quiet this clock from to message :
  posts (_handleIRCMessage this net clock from to message) = [] ->
  network (_handleIRCMessage this net clock from to message) = [].
Proof.
  rewrite handleIRCMessage_posts. unfold _handleIRCMessage.
  destruct (jsstring_eqb from (app_targetBot (config this))); [|reflexivity].
  cbn [negb with_stats with_rateLimiter rateLimiter].
  destruct (Security.rateLimiter 5 60000 (rateLimiter this) from
              (at_rateLimiter clock)) as [[|] requests]; [|reflexivity].
  cbn [negb fst nostrClient with_rateLimiter with_stats].
  destruct (nostrClient this) as [client|]; [|reflexivity].
  destruct (Security.sanitizeMessage message) as [|c text] eqn:E;
    [|discriminate].
  intros _. now apply postToNostr_quiet.
Qed.

End HandlerFacts.

(** C1, as stated, fails: a message of the target sender addressed to
    another channel than the configured one is handed to the publisher;
    the handler never looks at [to]. *)
Lemma handleIRCMessage_ignores_channel :
  let this := started env_default in
  let out :=
    Bridge._handleIRCMessage this all_accept noon
      (js "LibreRelayBot") (js "#OtherChannel") (VString (js "hello")) in
  Bridge.posts out <> []
  /\ ~ In (js "#OtherChannel") (Bridge.irc_channels (Bridge.config this)).
Proof.
  split.
  - vm_compute. discriminate.
  - vm_compute. intros [H|[]]. discriminate H.
Qed.

(** C1 (amended): a message is handed to the publisher if and only if
    its sender is exactly the configured target sender, the rate limiter
    accepts the sender at that moment, the sanitized text is not empty,
    and the Nostr client has been initialised; in every other case no
    publish call and no network operation is made.  The channel plays no
    part. *)
Theorem handleIRCMessage_relays_iff
    (this : Bridge.t) (net : jsstring -> Nostr.relay_behaviour)
    (clock : Bridge.Clock) (from to : jsstring) (message : value) :
  let out := Bridge._handleIRCMessage this net clock from to message in
  (Bridge.posts out <> [] <->
     from = Bridge.app_targetBot (Bridge.config this)
     /\ fst (Security.rateLimiter 5 60000 (Bridge.rateLimiter this) from
               (Bridge.at_rateLimiter clock)) = true
     /\ Security.sanitizeMessage message <> []
     /\ Bridge.nostrClient this <> None)
  /\ (Bridge.posts out = [] -> Bridge.network out = []).
Proof.
  intros out. subst out. split; [|apply handleIRCMessage_quiet].
  rewrite handleIRCMessage_posts.
  destruct (Bridge.jsstring_eqb from _) eqn:Efrom.
  - apply jsstring_eqb_eq in Efrom.
    destruct (fst (Security.rateLimiter _ _ _ _ _)).
    + destruct (Bridge.nostrClient this),
        (Security.sanitizeMessage message); split;
        try (intros H; repeat split; congruence);
        try (intros (_ & _ & H1 & H2); congruence).
    + split; [congruence | intros (_ & H & _); discriminate H].
  - split; [congruence|]. intros (H & _).
    apply jsstring_eqb_eq in H. congruence.
Qed.

(** C9: a message that is not a string sanitizes to the empty string,
    and the handler drops it without any publish call or network
    operation. *)
Theorem non_string_message_dropped
    (this : Bridge.t) (net : jsstring -> Nostr.relay_behaviour)
    (clock : Bridge.Clock) (from to : jsstring) (message : value) :
  typeof_is_string message = false ->
  Security.sanitizeMessage message = []
  /\ Bridge.posts (Bridge._handleIRCMessage this net clock from to message) = []
  /\ Bridge.network (Bridge._handleIRCMessage this net clock from to message) = [].
Proof.
  intros H.
  assert (Security.sanitizeMessage message = []) as E
    by (destruct message; simpl in *; congruence).
  assert (Bridge.posts (Bridge._handleIRCMessage this net clock from to message) = [])
    as P.
  { rewrite handleIRCMessage_posts, E.
    destruct (Bridge.jsstring_eqb _ _); [|reflexivity].
    destruct (fst _); [|reflexivity]. now destruct (Bridge.nostrClient this). }
  split; [exact E|]. split; [exact P|]. now apply handleIRCMessage_quiet.
Qed.

Lemma non_string_message_dropped_witness :
  typeof_is_string VNull = false
  /\ Security.sanitizeMessage VNull = []
  /\ Bridge.posts
       (Bridge._handleIRCMessage (started env_default) all_accept noon
          (js "LibreRelayBot") (js "#SirLibre") VNull) = []
  /\ Bridge.network
       (Bridge._handleIRCMessage (started env_default) all_accept noon
          (js "LibreRelayBot") (js "#SirLibre") VNull) = [].
Proof.
  split; [reflexivity|].
  apply (non_string_message_dropped (started env_default) all_accept noon
           (js "LibreRelayBot") (js "#SirLibre") VNull).
  reflexivity.
Defined.

(** C8, as stated, fails: the two tags do not follow the configuration.
    With channel [#BowlAfterBowl] and target [BoostAfterBoost] the post
    carries the same tags as with the defaults. *)
Lemma tags_ignore_configuration :
  let out1 :=
    Bridge._handleIRCMessage (started env_default) all_accept noon
      (js "LibreRelayBot") (js "#SirLibre") (VString (js "hello")) in
  let out2 :=
    Bridge._handleIRCMessage (started env_bowl) all_accept noon
      (js "BoostAfterBoost") (js "#BowlAfterBowl") (VString (js "hello")) in
  List.map Nostr.tags (Bridge.posts out1) = [fixed_tags]
  /\ List.map Nostr.tags (Bridge.posts out2) = [fixed_tags]
  /\ Bridge.irc_channels (Bridge.config (started env_bowl)) = [js "#BowlAfterBowl"]
  /\ Bridge.app_targetBot (Bridge.config (started env_bowl)) = js "BoostAfterBoost"
  /\ Bridge.irc_channels (Bridge.config (started env_default)) = [js "#SirLibre"]
  /\ Bridge.app_targetBot (Bridge.config (started env_default)) = js "LibreRelayBot".
Proof. repeat split; vm_compute; reflexivity. Qed.

(** C8 (amended): every post handed to the publisher consists of the
    sanitized text, of at most 280 code units, and of exactly the two
    constant tags [t sirlibre] and [t librerelaybot], whatever channel
    and target sender are configured. *)
Theorem outbound_post_format
    (this : Bridge.t) (net : jsstring -> Nostr.relay_behaviour)
    (clock : Bridge.Clock) (from to : jsstring) (message : value)
    (post : Nostr.Event) :
  In post (Bridge.posts (Bridge._handleIRCMessage this net clock from to message)) ->
  Nostr.content post = Security.sanitizeMessage message
  /\ (length (Nostr.content post) <= 280)%nat
  /\ Nostr.tags post = fixed_tags
  /\ Nostr.kind post = 1.
Proof.
  rewrite handleIRCMessage_posts.
  destruct (Bridge.jsstring_eqb _ _); [|intros []].
  destruct (fst _); [|intros []].
  destruct (Bridge.nostrClient this); [|intros []].
  destruct (Security.sanitizeMessage message) as [|c text] eqn:E; [intros []|].
  intros [<-|[]]. cbn [Nostr.build_event Nostr.content Nostr.tags Nostr.kind].
  split; [reflexivity|]. split; [|split; reflexivity].
  rewrite <- E. destruct message; simpl; try lia.
  apply sanitize_string_length.
Qed.

Lemma outbound_post_format_witness :
  let post := Nostr.build_event 1752580800002 (js "hello") [] in
  In post
    (Bridge.posts
       (Bridge._handleIRCMessage (started env_bowl) two_fail noon
          (js "BoostAfterBoost") (js "#BowlAfterBowl") (VString (js " hello "))))
  /\ Nostr.content post = Security.sanitizeMessage (VString (js " hello "))
  /\ (length (Nostr.content post) <= 280)%nat
  /\ Nostr.tags post = fixed_tags
  /\ Nostr.kind post = 1.
Proof.
  assert (In (Nostr.build_event 1752580800002 (js "hello") [])
            (Bridge.posts
               (Bridge._handleIRCMessage (started env_bowl) two_fail noon
                  (js "BoostAfterBoost") (js "#BowlAfterBowl")
                  (VString (js " hello "))))) as H
    by (vm_compute; left; reflexivity).
  split; [exact H|].
  exact (outbound_post_format (started env_bowl) two_fail noon
           (js "BoostAfterBoost") (js "#BowlAfterBowl") (VString (js " hello "))
           _ H).
Defined.

(** ** Properties of the connection component *)

Section ReconnectFacts.
Import IRC.
Local Open Scope cmd_scope.

(** *** Logs of commands, compositionally *)

Variable Q : action -> Prop.







Hypothesis Q_ClearInterval : forall h, Q (ClearInterval h).
Hypothesis Q_ClientDisconnect : forall c, Q (ClientDisconnect c).
Hypothesis Q_NewClient : forall c, Q (NewClient c).
Hypothesis Q_SetInterval : forall h p, Q (SetInterval h p).
Hypothesis Q_Send : forall c m, Q (Send c m).
Hypothesis Q_Say : forall c, Q (Say c).
Hypothesis Q_reconnect : forall h, Q (SetTimeout h ReconnectTimer reconnectDelay).
Hypothesis Q_reset : forall h, Q (SetTimeout h ResetTimer 2000).















End ReconnectFacts.

Section GiveUpFacts.
Import IRC.






(** [disconnect()] clears the intervals but no pending callback. *)
Lemma disconnect_keeps_timeouts s :
  pendingTimeouts (fst (disconnect s)) = pendingTimeouts s.
Proof.
  destruct s as [c ic ra rc ka zh pt ai n].
  destruct c, ka, zh; reflexivity.
Qed.

End GiveUpFacts.



(** C7 (evaluation of the code): [disconnect()] cancels the intervals
    and closes the transport but leaves a scheduled reconnect callback
    pending; when that callback runs, [connect()] is called although
    nobody asked for it. *)
Theorem disconnect_leaves_reconnect_pending :
  (forall s, IRC.pendingTimeouts (fst (IRC.disconnect s)) = IRC.pendingTimeouts s)
  /\ (let s := fst (IRC.run IRC.new_IRCClient disconnect_during_delay) in
      IRC.client s = None
      /\ IRC.isConnected s = false
      /\ IRC.activeIntervals s = []
      /\ IRC.reconnecting s = false
      /\ IRC.pendingTimeouts s = [(2%nat, IRC.ReconnectTimer)]
      /\ snd (IRC.step s (IRC.TimeoutFires 2)) = [IRC.NewClient 3]).
Proof.
  split; [apply disconnect_keeps_timeouts|].
  vm_compute. repeat split; reflexivity.
Qed.

(** ** The scenarios of the specification, evaluated *)

Example parseRelays_splits_and_trims :
  Bridge.parseRelays (Some (js "wss://a.example, wss://b.example,,"))
  = [js "wss://a.example"; js "wss://b.example"].
Proof. reflexivity. Qed.

Example other_sender_never_forwarded :
  let out :=
    Bridge._handleIRCMessage (started env_default) all_accept noon
      (js "OtherBot") (js "#SirLibre") (VString (js "hello")) in
  Bridge.posts out = [] /\ Bridge.network out = []
  /\ Bridge.bridge out = started env_default.
Proof. vm_compute. repeat split; reflexivity. Qed.

Example sender_match_is_case_sensitive :
  Bridge.posts
    (Bridge._handleIRCMessage (started env_default) all_accept noon
       (js "librerelaybot") (js "#SirLibre") (VString (js "hello"))) = [].
Proof. vm_compute. reflexivity. Qed.

Example target_sender_forwarded_to_all_relays :
  let out :=
    Bridge._handleIRCMessage (started env_default) two_fail noon
      (js "LibreRelayBot") (js "#SirLibre") (VString (js "hello")) in
  List.map Nostr.content (Bridge.posts out) = [js "hello"]
  /\ attempted (Bridge.network out) = 5%nat
  /\ Bridge.successfulPosts (Bridge.stats (Bridge.bridge out)) = 1%nat.
Proof. vm_compute. repeat split; reflexivity. Qed.

Example test_mode_touches_no_relay :
  let out :=
    Bridge._handleIRCMessage (started env_test_mode) two_fail noon
      (js "LibreRelayBot") (js "#SirLibre") (VString (js "hello")) in
  List.map Nostr.content (Bridge.posts out) = [js "hello"]
  /\ Bridge.network out = []
  /\ Bridge.successfulPosts (Bridge.stats (Bridge.bridge out)) = 1%nat.
Proof. vm_compute. repeat split; reflexivity. Qed.

(** A recovered connection is not overridden: the delay runs out after
    the client has registered again, and nothing happens. *)
Example recovered_connection_is_kept :
  snd (IRC.run IRC.new_IRCClient
         [IRC.Call IRC.CallConnect; IRC.ClientEvent 0 IRC.Registered;
          IRC.ClientEvent 0 IRC.Error; IRC.IntervalFires 1 true;
          IRC.ClientEvent 0 IRC.Registered; IRC.TimeoutFires 2])
  = [IRC.NewClient 0; IRC.SetInterval 1 60000;
     IRC.SetTimeout 2 IRC.ReconnectTimer 10000; IRC.SetInterval 3 60000].
Proof. vm_compute. reflexivity. Qed.

(** ** Further properties of sanitization *)

Section SanitizeShape.
Import Security.

Lemma trimStart_nil_iff s : trimStart s = [] <-> forallb is_whitespace s = true.
Proof.
  induction s as [|c s IH]; simpl; [easy|].
  destruct (is_whitespace c); simpl; [exact IH | easy].
Qed.

Lemma trimEnd_nil_of_head_clean s :
  head_clean s = true -> trimEnd s = [] -> s = [].
Proof.
  intros H E. destruct s as [|c s]; [reflexivity|]. exfalso.
  simpl in H. apply negb_true_iff in H.
  assert (forallb is_whitespace (rev (c :: s)) = true) as A.
  { apply trimStart_nil_iff. unfold trimEnd in E.
    apply (f_equal (@rev N)) in E. now rewrite rev_involutive in E. }
  rewrite forallb_forall in A.
  specialize (A c). rewrite <- in_rev in A.
  rewrite A in H by now left. discriminate H.
Qed.

Lemma trim_nil_iff s : trim s = [] <-> forallb is_whitespace s = true.
Proof.
  unfold trim. rewrite <- trimStart_nil_iff. split.
  - apply trimEnd_nil_of_head_clean, trimStart_head_clean.
  - now intros ->.
Qed.

Lemma forallb_remove_control s :
  forallb is_whitespace (remove_control s) = forallb is_blank s.
Proof.
  unfold remove_control, is_blank. induction s as [|c s IH]; [reflexivity|].
  simpl. destruct (is_control c); simpl; now rewrite IH.
Qed.

Lemma take_nil_iff (s : jsstring) n : (0 < n)%nat -> take n s = [] <-> s = [].
Proof. destruct n, s; simpl; intros; split; intros; try easy; lia. Qed.

End SanitizeShape.

(** X1: whatever string comes in, the sanitized text has at most 280
    code units, holds no control character (U+0000 to U+001F, U+007F)
    and does not begin with white space. *)
Theorem sanitizeMessage_shape (message : value) :
  (length (Security.sanitizeMessage message) <= 280)%nat
  /\ (forall c, In c (Security.sanitizeMessage message) ->
        Security.is_control c = false)
  /\ Security.head_clean (Security.sanitizeMessage message) = true.
Proof.
  destruct message as [| |b|n|s|r]; simpl; try (repeat split; (lia || easy)).
  split; [apply sanitize_string_length|].
  split; [intros c; apply sanitize_string_no_control|].
  apply sanitize_string_head_clean.
Qed.

(** X2: a string sanitizes to the empty string, and is then dropped,
    exactly when every one of its code units is a control character or
    white space. *)
Theorem sanitizeMessage_empty_iff (s : jsstring) :
  Security.sanitizeMessage (VString s) = []
  <-> forallb is_blank s = true.
Proof.
  simpl. unfold Security.sanitize_string, Security.substring0.
  rewrite take_nil_iff by lia.
  rewrite trim_nil_iff. now rewrite forallb_remove_control.
Qed.

(** X3: a text without control characters, without white space at
    either end and of at most 280 code units passes unchanged. *)
Theorem sanitizeMessage_keeps_clean_text (s : jsstring) :
  (forall c, In c s -> Security.is_control c = false) ->
  Security.head_clean s = true ->
  Security.ends_with_whitespace s = false ->
  (length s <= 280)%nat ->
  Security.sanitizeMessage (VString s) = s.
Proof.
  intros Hc Hh He Hl. simpl.
  unfold Security.sanitize_string, Security.substring0, Security.trim.
  rewrite remove_control_id by exact Hc.
  rewrite trimStart_id by exact Hh.
  rewrite trimEnd_id by exact He.
  now apply take_ge.
Qed.

Lemma sanitizeMessage_keeps_clean_text_witness :
  Security.sanitizeMessage (VString (js "boost: 21 sats from alice"))
  = js "boost: 21 sats from alice".
Proof.
  apply (sanitizeMessage_keeps_clean_text (js "boost: 21 sats from alice")).
  - intros c H. vm_compute in H.
    repeat (destruct H as [<-|H]; [reflexivity|]). destruct H.
  - reflexivity.
  - reflexivity.
  - vm_compute. lia.
Defined.

(** X4: two passes of sanitization always reach a fixed point: a third
    pass changes nothing. *)
Theorem sanitizeMessage_stable_after_two_passes (x : value) :
  let once := Security.sanitizeMessage x in
  let twice := Security.sanitizeMessage (VString once) in
  Security.sanitizeMessage (VString twice) = twice.
Proof.
  intros once twice. subst twice once. cbn [Security.sanitizeMessage].
  apply sanitize_string_fixed_iff.
  destruct x as [| |b|n|s|r]; cbn [Security.sanitizeMessage]; try reflexivity.
  rewrite sanitize_string_twice. apply trimEnd_clean_end.
Qed.

(** ** Further properties of the rate limiter *)

Section LimiterKeys.
Import Security.

Variables (maxRequests windowMs : Z).

Lemma rateLimiter_other_key requests key now key' :
  key <> key' ->
  snd (rateLimiter maxRequests windowMs requests key now) !! key'
  = requests !! key'.
Proof.
  intros Hne. rewrite rateLimiter_unfold. cbv zeta.
  destruct (_ >=? _); simpl; now rewrite lookup_insert_ne.
Qed.

Lemma rateLimiter_same_key m1 m2 key now :
  m1 !! key = m2 !! key ->
  fst (rateLimiter maxRequests windowMs m1 key now)
  = fst (rateLimiter maxRequests windowMs m2 key now)
  /\ snd (rateLimiter maxRequests windowMs m1 key now) !! key
     = snd (rateLimiter maxRequests windowMs m2 key now) !! key.
Proof.
  intros E. rewrite !rateLimiter_unfold, E. cbv zeta.
  destruct (_ >=? _); simpl; now rewrite !lookup_insert_eq.
Qed.

Lemma jsstring_eqb_false a b : Bridge.jsstring_eqb a b = false <-> a <> b.
Proof. unfold Bridge.jsstring_eqb. apply bool_decide_eq_false. Qed.

Lemma rateLimiter_run_per_key calls m1 m2 key :
  m1 !! key = m2 !! key ->
  verdicts_of key calls (fst (rateLimiter_run maxRequests windowMs m1 calls))
  = fst (rateLimiter_run maxRequests windowMs m2 (calls_of key calls))
  /\ snd (rateLimiter_run maxRequests windowMs m1 calls) !! key
     = snd (rateLimiter_run maxRequests windowMs m2 (calls_of key calls)) !! key.
Proof.
  revert m1 m2. induction calls as [|[k now] calls IH]; intros m1 m2 E.
  - simpl. now split.
  - cbn [rateLimiter_run calls_of List.filter fst].
    destruct (Bridge.jsstring_eqb k key) eqn:K.
    + apply jsstring_eqb_eq in K. subst k.
      destruct (rateLimiter_same_key m1 m2 key now E) as [Ev Em].
      cbn [rateLimiter_run].
      destruct (rateLimiter maxRequests windowMs m1 key now) as [ok1 m1'].
      destruct (rateLimiter maxRequests windowMs m2 key now) as [ok2 m2'].
      cbn [fst snd] in Ev, Em. subst ok2.
      specialize (IH m1' m2' Em). fold (calls_of key calls).
      destruct (rateLimiter_run maxRequests windowMs m1' calls) as [oks1 f1].
      destruct (rateLimiter_run maxRequests windowMs m2' (calls_of key calls))
        as [oks2 f2].
      cbn [fst snd verdicts_of] in *.
      rewrite (proj2 (jsstring_eqb_eq key key) eq_refl).
      destruct IH as [-> ->]. now split.
    + apply jsstring_eqb_false in K.
      pose proof (rateLimiter_other_key m1 k now key K) as Eo.
      destruct (rateLimiter maxRequests windowMs m1 k now) as [ok1 m1'].
      cbn [snd] in Eo. rewrite E in Eo.
      specialize (IH m1' m2 Eo). fold (calls_of key calls).
      destruct (rateLimiter_run maxRequests windowMs m1' calls) as [oks1 f1].
      cbn [fst snd verdicts_of] in *.
      rewrite (proj2 (jsstring_eqb_false k key) K). exact IH.
Qed.

End LimiterKeys.

(** X5: the senders do not influence each other: in any sequence of
    checks, the verdicts given to one key and the window stored for it
    are those the limiter would have given had it only seen the checks
    of that key. *)
Theorem rateLimiter_keys_are_independent
    (maxRequests windowMs : Z) (requests : gmap jsstring (list Z))
    (calls : list (jsstring * Z)) (key : jsstring) :
  verdicts_of key calls
    (fst (Security.rateLimiter_run maxRequests windowMs requests calls))
  = fst (Security.rateLimiter_run maxRequests windowMs requests (calls_of key calls))
  /\ snd (Security.rateLimiter_run maxRequests windowMs requests calls) !! key
     = snd (Security.rateLimiter_run maxRequests windowMs requests
              (calls_of key calls)) !! key.
Proof.
  destruct (rateLimiter_run_per_key maxRequests windowMs calls requests requests
              key eq_refl) as [Hverdicts Hwindow].
  split; [exact Hverdicts | exact Hwindow].
Qed.

Section SlidingWindow.
Import Security.

Variables (maxRequests windowMs : Z).

Local Abbreviation tracks := (window_tracks windowMs).

Lemma shift_old_split w l :
  Sorted Z.le l ->
  exists removed,
    l = removed ++ shift_old w l
    /\ Forall (fun t => t < w) removed
    /\ Forall (fun t => w <= t) (shift_old w l).
Proof.
  intros S. apply Sorted_StronglySorted in S; [|intros x y z; lia].
  induction S as [|t l S IH Ht]; simpl.
  - exists []. repeat split; constructor.
  - destruct (Z.ltb_spec t w) as [Hlt|Hge].
    + destruct IH as (removed & E & Fr & Fk).
      exists (t :: removed). split; [simpl; now f_equal|].
      split; [now constructor | exact Fk].
    + exists []. split; [reflexivity|]. split; [constructor|].
      constructor; [exact Hge|].
      eapply Forall_impl; [exact Ht|]. simpl. intros; lia.
Qed.

Lemma filter_window_none w l :
  Forall (fun t => t < w) l -> List.filter (fun t => w <=? t) l = [].
Proof.
  induction 1 as [|t l Ht _ IH]; simpl; [reflexivity|].
  destruct (Z.leb_spec w t); [lia | exact IH].
Qed.

Lemma filter_window_all w l :
  Forall (fun t => w <= t) l -> List.filter (fun t => w <=? t) l = l.
Proof.
  induction 1 as [|t l Ht _ IH]; simpl; [reflexivity|].
  destruct (Z.leb_spec w t); [now f_equal | lia].
Qed.

Lemma times_of_app key a b :
  times_of key (a ++ b) = times_of key a ++ times_of key b.
Proof. unfold times_of, calls_of. now rewrite List.filter_app, List.map_app. Qed.

Lemma Forall_lt_weaken a b l :
  a <= b -> Forall (fun t => t < a) l -> Forall (fun t => t < b) l.
Proof. intros H F. eapply Forall_impl; [exact F|]. simpl. intros; lia. Qed.

Lemma Forall_le_weaken a b l :
  a <= b -> Forall (fun t => t <= a) l -> Forall (fun t => t <= b) l.
Proof. intros H F. eapply Forall_impl; [exact F|]. simpl. intros; lia. Qed.

Lemma tracks_step last accepted requests key now :
  tracks last accepted requests -> last <= now ->
  let ok := Z.of_nat (in_window windowMs now key accepted) <? maxRequests in
  fst (rateLimiter maxRequests windowMs requests key now) = ok
  /\ tracks now (if ok then accepted ++ [(key, now)] else accepted)
       (snd (rateLimiter maxRequests windowMs requests key now)).
Proof.
  intros T Hle ok.
  destruct (T key) as (dropped & Eacc & Fd & Ss & Fs).
  set (stored := default [] (requests !! key)) in *.
  destruct (shift_old_split (now - windowMs) stored Ss) as (removed & Est & Fr & Fk).
  set (kept := shift_old (now - windowMs) stored) in *.
  assert (in_window windowMs now key accepted = length kept) as Ewin.
  { unfold in_window. rewrite Eacc, Est, !List.filter_app.
    rewrite (filter_window_none _ dropped)
      by (eapply Forall_lt_weaken; [|exact Fd]; lia).
    rewrite (filter_window_none _ removed) by exact Fr.
    now rewrite (filter_window_all _ kept) by exact Fk. }
  assert (Forall (fun t => t <= now) kept) as Fkn.
  { apply (Forall_le_weaken last); [exact Hle|].
    rewrite Est in Fs. now apply Forall_app in Fs as [_ Fs]. }
  assert (Sorted Z.le kept) as Sk by now apply shift_old_Sorted.
  assert (Forall (fun t => t < now - windowMs) (dropped ++ removed)) as Fdr.
  { apply Forall_app. split; [|exact Fr].
    eapply Forall_lt_weaken; [|exact Fd]. lia. }
  rewrite rateLimiter_unfold. cbv zeta. fold stored. fold kept.
  subst ok. rewrite Ewin.
  assert (forall k, k <> key -> exists d,
            times_of k accepted = d ++ default [] (requests !! k)
            /\ Forall (fun t => t < now - windowMs) d
            /\ Sorted Z.le (default [] (requests !! k))
            /\ Forall (fun t => t <= now) (default [] (requests !! k))) as Other.
  { intros k Hk. destruct (T k) as (d & E & F1 & S1 & F2).
    exists d. split; [exact E|]. split; [|split; [exact S1|]].
    - eapply Forall_lt_weaken; [|exact F1]. lia.
    - now apply (Forall_le_weaken last). }
  destruct (Z.geb_spec (Z.of_nat (length kept)) maxRequests) as [G|G];
    destruct (Z.ltb_spec (Z.of_nat (length kept)) maxRequests) as [L|L];
    try lia; cbn [fst snd]; (split; [reflexivity|]); intros k;
    destruct (decide (k = key)) as [->|Hk].
  - exists (dropped ++ removed). rewrite lookup_insert_eq. cbn [default id].
    split; [now rewrite Eacc, Est, app_assoc|]. now repeat split.
  - rewrite lookup_insert_ne by congruence. now apply Other.
  - exists (dropped ++ removed). rewrite lookup_insert_eq. cbn [default id].
    split.
    + rewrite times_of_app, Eacc, Est. unfold times_of, calls_of.
      cbn [List.filter fst]. rewrite (proj2 (jsstring_eqb_eq key key) eq_refl).
      cbn [List.map snd]. now rewrite <- !app_assoc.
    + split; [exact Fdr|]. split.
      * now apply Sorted_snoc.
      * apply Forall_app. split; [exact Fkn|]. constructor; [lia|constructor].
  - rewrite lookup_insert_ne by congruence.
    destruct (Other k Hk) as (d & E & F1 & S1 & F2). exists d.
    split; [|now repeat split].
    rewrite times_of_app, E. unfold times_of, calls_of.
    cbn [List.filter fst].
    rewrite (proj2 (jsstring_eqb_false key k)) by congruence.
    cbn [List.map]. now rewrite app_nil_r.
Qed.

Lemma tracks_run calls last accepted requests :
  tracks last accepted requests -> clock_monotone last calls ->
  fst (rateLimiter_run maxRequests windowMs requests calls)
  = sliding_window maxRequests windowMs accepted calls.
Proof.
  revert last accepted requests.
  induction calls as [|[key now] calls IH]; intros last accepted requests T M.
  - reflexivity.
  - cbn [rateLimiter_run sliding_window]. destruct M as [Hle M].
    destruct (tracks_step last accepted requests key now T Hle) as [Ev T'].
    destruct (rateLimiter maxRequests windowMs requests key now) as [ok m1].
    cbn [fst snd] in Ev, T'. subst ok.
    specialize (IH now _ m1 T' M).
    destruct (rateLimiter_run maxRequests windowMs m1 calls) as [oks m2].
    cbn [fst] in *. now rewrite IH.
Qed.

Lemma tracks_empty last : tracks last [] ∅.
Proof.
  intros key. exists []. rewrite lookup_empty. simpl.
  repeat split; constructor.
Qed.

End SlidingWindow.

(** X6: as long as the clock readings of successive checks do not go
    back, a new limiter decides exactly like a sliding window: a check
    is accepted if and only if fewer than [maxRequests] accepted checks
    of the same key are at most [windowMs] old at that moment. *)
Theorem rateLimiter_is_sliding_window
    (maxRequests windowMs first : Z) (calls : list (jsstring * Z)) :
  clock_monotone first calls ->
  fst (Security.rateLimiter_run maxRequests windowMs ∅ calls)
  = sliding_window maxRequests windowMs [] calls.
Proof.
  intros M. apply (tracks_run maxRequests windowMs calls first).
  - apply tracks_empty.
  - exact M.
Qed.

Lemma rateLimiter_is_sliding_window_witness :
  let calls := [(js "LibreRelayBot", 0); (js "LibreRelayBot", 10);
                (js "LibreRelayBot", 20); (js "Other", 25);
                (js "LibreRelayBot", 30); (js "LibreRelayBot", 40);
                (js "LibreRelayBot", 50); (js "LibreRelayBot", 60005);
                (js "LibreRelayBot", 60006)] in
  clock_monotone 0 calls
  /\ fst (Security.rateLimiter_run 5 60000 ∅ calls)
     = sliding_window 5 60000 [] calls.
Proof.
  intros calls.
  assert (clock_monotone 0 calls) as M by (simpl; lia).
  split; [exact M|].
  exact (rateLimiter_is_sliding_window 5 60000 0 calls M).
Defined.

(** ** Properties of configuration parsing *)

Section ConfigFacts.
Import ConfigParse.

Lemma digit_value_decimal c :
  is_decimal_digit c = true -> digit_value 10 c = Some (Z.of_N c - 0x30).
Proof.
  unfold is_decimal_digit, digit_value. intros H. rewrite H.
  apply andb_true_iff in H as [H1 H2].
  apply N.leb_le in H1. apply N.leb_le in H2.
  destruct (Z.ltb_spec (Z.of_N c - 48) 10); [reflexivity | lia].
Qed.

Lemma decimal_digit_cases c :
  is_decimal_digit c = true ->
  (c = 0x30 \/ c = 0x31 \/ c = 0x32 \/ c = 0x33 \/ c = 0x34
   \/ c = 0x35 \/ c = 0x36 \/ c = 0x37 \/ c = 0x38 \/ c = 0x39)%N.
Proof.
  unfold is_decimal_digit. intros H. apply andb_true_iff in H as [H1 H2].
  apply N.leb_le in H1. apply N.leb_le in H2. lia.
Qed.

(** On a non-empty string of decimal digits, [parseInt] reads all of it
    in base 10: nothing is skipped, no sign and no [0x] prefix is seen. *)
Lemma parseInt_string_digits c rest :
  is_decimal_digit c = true ->
  Forall (fun c => is_decimal_digit c = true) rest ->
  parseInt_string (c :: rest) = digits_prefix 10 (c :: rest) None.
Proof.
  intros Hc Hrest. unfold parseInt_string.
  assert (Security.trimStart (c :: rest) = c :: rest) as ->.
  { destruct (decimal_digit_cases c Hc) as [H|H];
      repeat (destruct H as [->|H]; [reflexivity|]); now subst. }
  assert (forall o : option Z,
            match o with Some v => Some (1 * v) | None => None end = o) as One.
  { intros [v|]; [f_equal; lia | reflexivity]. }
  destruct (decimal_digit_cases c Hc) as [->|H].
  - destruct rest as [|c2 rest]; [apply One|].
    apply Forall_cons_1 in Hrest as [Hc2 _].
    destruct (decimal_digit_cases c2 Hc2) as [H|H];
      repeat (destruct H as [->|H]; [apply One|]); subst; apply One.
  - repeat (destruct H as [->|H]; [apply One|]). subst. apply One.
Qed.

Lemma uint_units_digits d :
  Forall (fun c => is_decimal_digit c = true) (Logger.uint_units d).
Proof. induction d; simpl; constructor; auto. Qed.

Lemma digits_prefix_uint d acc :
  digits_prefix 10 (Logger.uint_units d) (Some (Z.of_nat acc))
  = Some (Z.of_nat (Nat.of_uint_acc d acc)).
Proof.
  revert acc. induction d; intros acc; cbn [Logger.uint_units Nat.of_uint_acc];
    [reflexivity|..];
    cbn [digits_prefix]; rewrite digit_value_decimal by reflexivity;
    cbn [default id]; rewrite Nat.tail_mul_spec;
    rewrite <- IHd; do 2 f_equal; lia.
Qed.

Lemma digits_prefix_start c rest :
  is_decimal_digit c = true ->
  digits_prefix 10 (c :: rest) None = digits_prefix 10 (c :: rest) (Some 0).
Proof.
  intros H. cbn [digits_prefix]. now rewrite digit_value_decimal by exact H.
Qed.

Lemma to_uint_nonnil n : Nat.to_uint n <> Decimal.Nil.
Proof.
  pose proof (DecimalNat.Unsigned.to_of (Nat.to_uint n)) as H.
  rewrite DecimalNat.Unsigned.of_to in H. rewrite H.
  apply DecimalFacts.unorm_nonnil.
Qed.

Lemma parseInt_decimal n : parseInt (Some (decimal n)) = Some (Z.of_nat n).
Proof.
  unfold parseInt, decimal.
  pose proof (uint_units_digits (Nat.to_uint n)) as F.
  pose proof (digits_prefix_uint (Nat.to_uint n) 0) as D.
  fold (Nat.of_uint (Nat.to_uint n)) in D.
  rewrite DecimalNat.Unsigned.of_to in D.
  destruct (Logger.uint_units (Nat.to_uint n)) as [|c rest] eqn:E.
  - exfalso. apply (to_uint_nonnil n).
    destruct (Nat.to_uint n); simpl in E; congruence.
  - apply Forall_cons_1 in F as [Hc Hrest].
    rewrite parseInt_string_digits by assumption.
    rewrite digits_prefix_start by exact Hc. exact D.
Qed.

Lemma parsePort_range value port :
  parsePort value = Some port -> 1 <= port <= 65535.
Proof.
  unfold parsePort. destruct (parseInt value) as [p|]; [|discriminate].
  destruct (Z.ltb_spec p 1), (Z.gtb_spec p 65535); simpl; try discriminate.
  intros [= <-]. lia.
Qed.

Lemma split_comma_no_comma value cur piece :
  (forall c, In c cur -> is_comma c = false) ->
  In piece (Bridge.split_comma value cur) ->
  forall c, In c piece -> is_comma c = false.
Proof.
  revert cur. induction value as [|x value IH]; intros cur Hcur; simpl.
  - intros [<-|[]] c Hc. apply Hcur. now apply in_rev.
  - fold (is_comma x). destruct (is_comma x) eqn:X.
    + intros [<-|H] c Hc.
      * apply Hcur. now apply in_rev.
      * eapply (IH []); [intros ? []| exact H | exact Hc].
    + apply IH. intros c [<-|Hc]; [exact X | now apply Hcur].
Qed.

End ConfigFacts.

Example parsePort_reads_a_prefix :
  ConfigParse.parsePort (Some (js " 6697 # tls")) = Some 6697
  /\ ConfigParse.parsePort (Some (js "0x1F90")) = Some 8080
  /\ ConfigParse.parsePort (Some (js "irc")) = None
  /\ ConfigParse.parsePort (Some (js "0")) = None
  /\ ConfigParse.parsePort (Some (js "-6667")) = None
  /\ ConfigParse.parsePort (Some (js "65536")) = None
  /\ ConfigParse.parsePort None = None.
Proof. repeat split; reflexivity. Qed.

(** X7: whatever the environment holds, the IRC port and the web port
    of the configuration lie between 1 and 65535: a value that
    [parsePort] accepts is in that range and is used as it is, every
    other value (unset, not a number, out of range) gives the default,
    6667 or 3336. *)
Theorem configured_ports_in_range (value : option jsstring) :
  1 <= ConfigParse.irc_port value <= 65535
  /\ 1 <= ConfigParse.app_port value <= 65535
  /\ match ConfigParse.parsePort value with
     | Some port =>
         1 <= port <= 65535
         /\ ConfigParse.irc_port value = port
         /\ ConfigParse.app_port value = port
     | None =>
         ConfigParse.irc_port value = 6667 /\ ConfigParse.app_port value = 3336
     end.
Proof.
  unfold ConfigParse.irc_port, ConfigParse.app_port, ConfigParse.port_or.
  destruct (ConfigParse.parsePort value) as [port|] eqn:E; [|lia].
  apply parsePort_range in E.
  destruct (Z.eqb_spec port 0); [lia|]. lia.
Qed.

(** X8: every port number from 1 to 65535, written in decimal, is read
    back by [parsePort] as itself. *)
Theorem parsePort_decimal_round_trip (port : Z) :
  1 <= port <= 65535 ->
  ConfigParse.parsePort (Some (decimal (Z.to_nat port))) = Some port.
Proof.
  intros H. unfold ConfigParse.parsePort. rewrite parseInt_decimal.
  rewrite Z2Nat.id by lia.
  destruct (Z.ltb_spec port 1); [lia|].
  destruct (Z.gtb_spec port 65535); [lia|]. reflexivity.
Qed.

Lemma parsePort_decimal_round_trip_witness :
  1 <= 6697 <= 65535
  /\ ConfigParse.parsePort (Some (decimal (Z.to_nat 6697))) = Some 6697.
Proof.
  split; [lia|]. apply (parsePort_decimal_round_trip 6697). lia.
Defined.

(** X9: every relay address that [parseRelays] returns is non-empty,
    has no white space at either end and contains no comma, whether it
    comes from [NOSTR_RELAYS] or from the defaults. *)
Theorem parseRelays_entries_are_trimmed (value : option jsstring) (url : jsstring) :
  In url (Bridge.parseRelays value) ->
  url <> []
  /\ Security.head_clean url = true
  /\ Security.ends_with_whitespace url = false
  /\ (forall c, In c url -> is_comma c = false).
Proof.
  unfold Bridge.parseRelays.
  assert (In url Bridge.default_relays ->
          url <> []
          /\ Security.head_clean url = true
          /\ Security.ends_with_whitespace url = false
          /\ (forall c, In c url -> is_comma c = false)) as Default.
  { intros H. repeat (destruct H as [<-|H];
      [ split; [discriminate|]; split; [reflexivity|]; split; [reflexivity|];
        intros c Hc; vm_compute in Hc;
        repeat (destruct Hc as [<-|Hc]; [reflexivity|]); destruct Hc |]).
    destruct H. }
  destruct value as [[|c s]|]; try exact Default.
  intros H. apply filter_In in H as [H Hne].
  apply in_map_iff in H as (piece & <- & Hp).
  split; [now destruct (Security.trim piece)|].
  split; [apply trimEnd_head_clean, trimStart_head_clean|].
  split; [apply trimEnd_clean_end|].
  intros x Hx. apply trimEnd_In, trimStart_In in Hx.
  eapply split_comma_no_comma; [|exact Hp|exact Hx]. intros ? [].
Qed.

Lemma parseRelays_entries_are_trimmed_witness :
  let value := Some (js " wss://a.example , wss://b.example,,") in
  In (js "wss://a.example") (Bridge.parseRelays value)
  /\ js "wss://a.example" <> []
  /\ Security.head_clean (js "wss://a.example") = true
  /\ Security.ends_with_whitespace (js "wss://a.example") = false
  /\ (forall c, In c (js "wss://a.example") -> is_comma c = false).
Proof.
  intros value.
  assert (In (js "wss://a.example") (Bridge.parseRelays value)) as H
    by (vm_compute; left; reflexivity).
  split; [exact H|].
  exact (parseRelays_entries_are_trimmed value (js "wss://a.example") H).
Defined.

(** X10: [validate()] reports no error exactly when [NOSTR_NSEC] is set
    to a string of 63 code units that begins with [nsec1]; the test for
    the placeholder of the example file never decides alone. *)
Theorem validate_accepts_iff (nsec : option jsstring) :
  ConfigParse.validate nsec = []
  <-> exists s, nsec = Some s
                /\ ConfigParse.startsWith s (js "nsec1") = true
                /\ length s = 63%nat.
Proof.
  unfold ConfigParse.validate. split.
  - destruct nsec as [[|c s]|]; cbn [app]; try discriminate.
    destruct (Bridge.jsstring_eqb (c :: s) _); cbn [app];
      destruct (ConfigParse.startsWith (c :: s) (js "nsec1")) eqn:P;
      destruct (Nat.eqb_spec (length (c :: s)) 63) as [L|L];
      cbn [negb orb app]; try discriminate.
    intros _. now exists (c :: s).
  - intros (s & -> & P & L). rewrite P, L. cbn [negb orb Nat.eqb].
    destruct s as [|c s]; [discriminate L|].
    destruct (Bridge.jsstring_eqb (c :: s) _) eqn:E; [|reflexivity].
    apply jsstring_eqb_eq in E. rewrite E in L. discriminate L.
Qed.

(** ** Further properties of the publisher *)

Section PublisherCounts.
Import Async Nostr.

Variable net : jsstring -> relay_behaviour.
Variable event : Event.





End PublisherCounts.






(** ** Further properties of the message handler *)

Section HandlerAccounting.
Import Bridge.

Variable net : jsstring -> Nostr.relay_behaviour.

(** The bridge that the handler leaves, case by case. *)
Lemma handleIRCMessage_bridge this clock from to message :
  let out := bridge (_handleIRCMessage this net clock from to message) in
  config out = config this
  /\ nostrClient out = nostrClient this
  /\ (if jsstring_eqb from (app_targetBot (config this))
      then
        rateLimiter out
        = snd (Security.rateLimiter 5 60000 (rateLimiter this) from
                 (at_rateLimiter clock))
        /\ messagesMonitored (stats out) = S (messagesMonitored (stats this))
        /\ lastActivity (stats out) = Some (at_activity clock)
        /\ ((successfulPosts (stats out) = successfulPosts (stats this)
             /\ failedPosts (stats out) = failedPosts (stats this))
            \/ (successfulPosts (stats out) = S (successfulPosts (stats this))
                /\ failedPosts (stats out) = failedPosts (stats this))
            \/ (successfulPosts (stats out) = successfulPosts (stats this)
                /\ failedPosts (stats out) = S (failedPosts (stats this))))
      else out = this).
Proof.
  unfold _handleIRCMessage.
  destruct (jsstring_eqb from (app_targetBot (config this))); cbn [negb];
    [|now repeat split].
  cbn [with_stats with_rateLimiter rateLimiter].
  destruct (Security.rateLimiter 5 60000 (rateLimiter this) from
              (at_rateLimiter clock)) as [[|] requests]; cbn [negb snd].
  - cbn [nostrClient with_rateLimiter with_stats].
    destruct (nostrClient this) as [client|] eqn:C.
    + unfold _postToNostr.
      destruct (Security.sanitizeMessage message) as [|c text].
      * cbn. rewrite C. repeat split; auto.
      * destruct (Nostr.publishMessage client net (at_publish clock) (c :: text) [])
          as [[r|e] ops]; [destruct (Nostr.success r)|];
          cbn; rewrite C; repeat split; auto.
    + cbn. rewrite C. repeat split; auto.
  - cbn. repeat split; auto.
Qed.

Lemma accounted_step this clock from to message :
  accounted this ->
  accounted (bridge (_handleIRCMessage this net clock from to message)).
Proof.
  intros (Keys & Bound & Count).
  pose proof (handleIRCMessage_bridge this clock from to message) as H.
  cbv zeta in H. destruct H as (Ec & _ & H).
  destruct (jsstring_eqb from (app_targetBot (config this))) eqn:F;
    [|rewrite H; now repeat split].
  apply jsstring_eqb_eq in F. destruct H as (El & Em & _ & Hs).
  unfold accounted. rewrite Ec, El, Em. split; [|split].
  - intros key Hk. rewrite rateLimiter_other_key by congruence. now apply Keys.
  - apply window_bounded_step; [lia | exact Bound].
  - destruct Hs as [[-> ->]|[[-> ->]|[-> ->]]]; lia.
Qed.

Lemma accounted_run deliveries this :
  accounted this ->
  accounted (handle_all this net deliveries)
  /\ config (handle_all this net deliveries) = config this
  /\ nostrClient (handle_all this net deliveries) = nostrClient this.
Proof.
  revert this. induction deliveries as [|d ds IH]; intros this A; [now split|].
  cbn [handle_all].
  pose proof (handleIRCMessage_bridge this (d_clock d) (d_from d) (d_to d)
                (d_message d)) as H.
  cbv zeta in H. destruct H as (Ec & En & _).
  destruct (IH _ (accounted_step this (d_clock d) (d_from d) (d_to d)
                    (d_message d) A)) as (A' & Ec' & En').
  split; [exact A'|]. split; congruence.
Qed.

Lemma accounted_started env : accounted (started env).
Proof.
  split; [|split].
  - intros key _. apply lookup_empty.
  - apply window_bounded_empty.
  - simpl. lia.
Qed.

End HandlerAccounting.

(** X13: whatever messages arrive, from whomever and in whatever order,
    the bridge keeps a rate-limit window for the target sender only and
    never more than five readings in it, never counts more posts than
    messages monitored, and never changes its configuration or its
    Nostr client. *)
Theorem bridge_state_stays_bounded
    (env : Bridge.Env) (net : jsstring -> Nostr.relay_behaviour)
    (deliveries : list Delivery) :
  let this := handle_all (started env) net deliveries in
  accounted this
  /\ Bridge.config this = Bridge.config (started env)
  /\ Bridge.nostrClient this = Bridge.nostrClient (started env).
Proof.
  intros this. subst this.
  pose proof (accounted_started env) as A.
  destruct (accounted_run net deliveries (started env) A) as (A' & Ec & En).
  split; [exact A'|]. split; [exact Ec | exact En].
Qed.

(** X14: a message of the target sender is charged before its text is
    looked at: the monitored counter and the rate-limit window after
    the handler depend on the sender and the clock only, so a message
    that is then dropped as empty, or that no relay accepts, uses up a
    slot like any other; a message of anybody else leaves the bridge
    exactly as it was. *)
Theorem handler_charges_before_sanitizing
    (this : Bridge.t) (net : jsstring -> Nostr.relay_behaviour)
    (clock : Bridge.Clock) (from to : jsstring) (message : value) :
  let out := Bridge.bridge (Bridge._handleIRCMessage this net clock from to message) in
  if Bridge.jsstring_eqb from (Bridge.app_targetBot (Bridge.config this))
  then
    Bridge.rateLimiter out
    = snd (Security.rateLimiter 5 60000 (Bridge.rateLimiter this) from
             (Bridge.at_rateLimiter clock))
    /\ Bridge.messagesMonitored (Bridge.stats out)
       = S (Bridge.messagesMonitored (Bridge.stats this))
    /\ Bridge.lastActivity (Bridge.stats out) = Some (Bridge.at_activity clock)
  else out = this.
Proof.
  intros out. subst out.
  pose proof (handleIRCMessage_bridge net this clock from to message) as H.
  cbv zeta in H. destruct H as (_ & _ & H).
  destruct (Bridge.jsstring_eqb from _); [|exact H].
  destruct H as (H1 & H2 & H3 & _). now repeat split.
Qed.



(** ** Further properties of the connection component *)

Section ComponentInvariants.
Import IRC.

Ltac unfold_cmds :=
  cbv [step on postMessage keepAlive_callback reconnect_callback
       resetAndReconnect connect disconnect attemptReconnect startKeepAlive
       stopKeepAlive stopZncHealthCheck setTimeout clearInterval
       seq cond modify emit skip fresh
       set_client set_isConnected set_reconnectAttempts set_reconnecting
       set_keepAliveInterval set_zncHealthInterval set_pendingTimeouts
       set_activeIntervals
       client isConnected reconnectAttempts reconnecting keepAliveInterval
       zncHealthInterval pendingTimeouts activeIntervals nextId
       negb andb fst snd].

Ltac step_cases :=
  unfold_cmds;
  repeat (match goal with
          | |- context [if (?a <? ?b) then _ else _] =>
              destruct (Z.ltb_spec a b)
          | |- context [if ?x then _ else _] => destruct x eqn:?
          | |- context [match ?x with Some _ => _ | None => _ end] =>
              destruct x eqn:?
          | |- context [match ?x with ReconnectTimer => _ | ResetTimer => _ end] =>
              destruct x eqn:?
          end; unfold_cmds);
  cbn [app].

Lemma step_well_formed s e : well_formed s -> well_formed (fst (step s e)).
Proof.
  unfold well_formed, maxReconnectAttempts.
  destruct s as [c ic ra rc ka zh pt ai n].
  cbn [reconnectAttempts isConnected client reconnecting pendingTimeouts].
  intros (Hra & Hic & Hrc).
  destruct e as [[| | |active ok]|cid ev|h|h ok]; [| | | |destruct ev| |];
    destruct c, ic, rc, ka, zh;
    try solve [exfalso; exact (Hic eq_refl eq_refl)];
    step_cases;
    unfold maxReconnectAttempts in *;
    (split; [lia|]); (split; [intros; congruence|]);
    intros Hr; first
      [ discriminate Hr
      | eexists; apply in_or_app; right; left; reflexivity
      | apply Hrc; assumption
      | apply Hrc; reflexivity ].
Qed.

Lemma run_well_formed events s :
  well_formed s -> well_formed (fst (run s events)).
Proof.
  revert s. induction events as [|e events IH]; intros s W; [exact W|].
  cbn [run]. pose proof (step_well_formed s e W) as W1.
  destruct (step s e) as [s1 o1]. specialize (IH s1 W1).
  destruct (run s1 events) as [s2 o2]. exact IH.
Qed.

Lemma new_IRCClient_well_formed : well_formed new_IRCClient.
Proof.
  unfold well_formed, maxReconnectAttempts. cbn.
  split; [lia|]. split; discriminate.
Qed.

(** Clients created and clients closed balance with the client held. *)
Lemma step_live_balance s e :
  (count is_NewClient (snd (step s e)) + live s
   = count is_ClientDisconnect (snd (step s e)) + live (fst (step s e)))%nat.
Proof.
  unfold live, count. destruct s as [c ic ra rc ka zh pt ai n].
  destruct e as [[| | |active ok]|cid ev|h|h ok]; [| | | |destruct ev| |];
    destruct c, ic, rc, ka, zh; step_cases;
    first [reflexivity | congruence].
Qed.

Lemma run_live_balance events s :
  (count is_NewClient (snd (run s events)) + live s
   = count is_ClientDisconnect (snd (run s events)) + live (fst (run s events)))%nat.
Proof.
  revert s. induction events as [|e events IH]; intros s; [reflexivity|].
  cbn [run]. pose proof (step_live_balance s e) as B1.
  destruct (step s e) as [s1 o1]. specialize (IH s1).
  destruct (run s1 events) as [s2 o2]. cbn [fst snd] in *.
  unfold count in *. rewrite !List.filter_app, !length_app. lia.
Qed.

(** Without a reset, the counter counts the reconnects scheduled. *)
Lemma step_counts_schedules s e :
  no_reset e = true ->
  reconnectAttempts (fst (step s e))
  = reconnectAttempts s + Z.of_nat (count is_reconnect_schedule (snd (step s e))).
Proof.
  unfold count. destruct s as [c ic ra rc ka zh pt ai n]. intros N.
  destruct e as [[| | |active ok]|cid ev|h|h ok]; [| | | |destruct ev| |];
    try discriminate N;
    destruct c, ic, rc, ka, zh; step_cases; cbn;
    first [lia | congruence].
Qed.

Lemma run_counts_schedules events s :
  Forall (fun e => no_reset e = true) events ->
  reconnectAttempts (fst (run s events))
  = reconnectAttempts s + Z.of_nat (count is_reconnect_schedule (snd (run s events))).
Proof.
  intros N. revert s. induction N as [|e events He _ IH]; intros s.
  - cbn. lia.
  - cbn [run]. pose proof (step_counts_schedules s e He) as C1.
    destruct (step s e) as [s1 o1]. specialize (IH s1).
    destruct (run s1 events) as [s2 o2]. cbn [fst snd] in *.
    unfold count in *. rewrite List.filter_app, length_app. lia.
Qed.

Lemma disconnect_result s :
  let s' := fst (disconnect s) in
  client s' = None
  /\ isConnected s' = false
  /\ reconnecting s' = false
  /\ keepAliveInterval s' = None
  /\ zncHealthInterval s' = None
  /\ reconnectAttempts s' = reconnectAttempts s
  /\ disconnect s' = (s', []).
Proof.
  destruct s as [c ic ra rc ka zh pt ai n].
  destruct c, ka, zh; cbn; repeat split; reflexivity.
Qed.

Lemma loss_event_disconnects s c ev :
  client s = Some c ->
  ev = Error \/ ev = Close \/ ev = Disconnect ->
  isConnected (fst (step s (ClientEvent c ev))) = false.
Proof.
  destruct s as [c0 ic ra rc ka zh pt ai n]. cbn [client]. intros -> Hev.
  cbn [step client]. rewrite Nat.eqb_refl.
  destruct Hev as [-> | [-> | ->]]; destruct ic, rc, ka, zh; step_cases;
    reflexivity.
Qed.

End ComponentInvariants.

(** X16: every state an [IRCClient] can reach, whatever events and
    calls occur in whatever order, has its attempt counter between 0
    and [maxReconnectAttempts], is marked connected only while it holds
    a client, and has its reconnecting flag set only while a reconnect
    callback is pending to clear it. *)
Theorem reachable_states_are_well_formed (events : list IRC.event) :
  well_formed (fst (IRC.run IRC.new_IRCClient events)).
Proof.
  pose proof new_IRCClient_well_formed as W.
  exact (run_well_formed events IRC.new_IRCClient W).
Qed.

(** X17: the component never holds two transports: in every run the
    clients created are the clients closed plus the one still held, so
    from a new [IRCClient] at most one client is open at any time. *)
Theorem at_most_one_open_client (events : list IRC.event) :
  let '(s, log) := IRC.run IRC.new_IRCClient events in
  (count IRC.is_NewClient log = count is_ClientDisconnect log + live s)%nat
  /\ (live s <= 1)%nat.
Proof.
  pose proof (run_live_balance events IRC.new_IRCClient) as B.
  destruct (IRC.run IRC.new_IRCClient events) as [s log]. cbn [fst snd] in B.
  split; [unfold live at 1 in B; cbn in B; lia|].
  unfold live. destruct (IRC.client s); lia.
Qed.

(** X18: between two resets of the counter (a registration or
    [resetAndReconnect()]) the component schedules at most
    [maxReconnectAttempts] reconnects, whatever else happens: the
    counter grows by one with each of them and never passes the
    maximum. *)
Theorem reconnects_are_bounded (s : IRC.state) (events : list IRC.event) :
  well_formed s ->
  Forall (fun e => no_reset e = true) events ->
  Z.of_nat (count IRC.is_reconnect_schedule (snd (IRC.run s events)))
  = IRC.reconnectAttempts (fst (IRC.run s events)) - IRC.reconnectAttempts s
  /\ Z.of_nat (count IRC.is_reconnect_schedule (snd (IRC.run s events)))
     <= IRC.maxReconnectAttempts - IRC.reconnectAttempts s.
Proof.
  intros W N.
  pose proof (run_counts_schedules events s N) as C.
  destruct (run_well_formed events s W) as (B & _).
  lia.
Qed.

Lemma reconnects_are_bounded_witness :
  let s := fst (IRC.run IRC.new_IRCClient
                  [IRC.Call IRC.CallConnect; IRC.ClientEvent 0 IRC.Registered]) in
  let events :=
    IRC.ClientEvent 0 IRC.Close :: IRC.failed_attempts 10 2
      ++ [IRC.Call IRC.CallDisconnect; IRC.Call IRC.CallConnect;
          IRC.ClientEvent 22 IRC.Close; IRC.IntervalFires 1 false] in
  (well_formed s /\ Forall (fun e => no_reset e = true) events)
  /\ Z.of_nat (count IRC.is_reconnect_schedule (snd (IRC.run s events)))
     = IRC.reconnectAttempts (fst (IRC.run s events)) - IRC.reconnectAttempts s
  /\ Z.of_nat (count IRC.is_reconnect_schedule (snd (IRC.run s events)))
     <= IRC.maxReconnectAttempts - IRC.reconnectAttempts s.
Proof.
  intros s events.
  assert (well_formed s) as W
    by (apply (run_well_formed [IRC.Call IRC.CallConnect;
                                 IRC.ClientEvent 0 IRC.Registered]),
          new_IRCClient_well_formed).
  assert (Forall (fun e => no_reset e = true) events) as N
    by (repeat constructor).
  split; [split; assumption|].
  exact (reconnects_are_bounded s events W N).
Defined.

(** X19: [disconnect()] leaves the object without client, not
    connected, not reconnecting and without interval handles, keeps the
    attempt counter, and is idempotent: a second call changes nothing
    and does nothing. *)
Theorem disconnect_is_idempotent (s : IRC.state) :
  let s' := fst (IRC.disconnect s) in
  IRC.client s' = None
  /\ IRC.isConnected s' = false
  /\ IRC.reconnecting s' = false
  /\ IRC.keepAliveInterval s' = None
  /\ IRC.zncHealthInterval s' = None
  /\ IRC.reconnectAttempts s' = IRC.reconnectAttempts s
  /\ IRC.disconnect s' = (s', []).
Proof.
  intros s'. subst s'.
  destruct (disconnect_result s) as (Hc & Hi & Hr & Hk & Hz & Ha & Hd).
  repeat split; assumption.
Qed.

(** X20: the health endpoint answers 200 only for a bridge whose Nostr
    client is initialised and whose IRC component holds a client that
    has registered; whenever the current client reports an error, a
    close or a disconnect, the next answer is 503. *)
Theorem health_follows_the_connection
    (events : list IRC.event) (nostrClient : option Nostr.NostrClient) :
  let s := fst (IRC.run IRC.new_IRCClient events) in
  (fst (Health.health (Some s) nostrClient) = 200 ->
   IRC.isConnected s = true /\ IRC.client s <> None /\ nostrClient <> None)
  /\ (forall c ev,
        IRC.client s = Some c ->
        ev = IRC.Error \/ ev = IRC.Close \/ ev = IRC.Disconnect ->
        Health.health (Some (fst (IRC.step s (IRC.ClientEvent c ev)))) nostrClient
        = (503, false))
  /\ Health.health None nostrClient = (503, false).
Proof.
  intros s. split; [|split].
  - destruct (run_well_formed events IRC.new_IRCClient new_IRCClient_well_formed)
      as (_ & Hic & _). fold s in Hic.
    unfold Health.health. destruct (IRC.isConnected s) eqn:E; [|discriminate].
    destruct nostrClient; [|discriminate]. intros _.
    split; [reflexivity|]. split; [now apply Hic | discriminate].
  - intros c ev Hc Hev. unfold Health.health.
    now rewrite (loss_event_disconnects s c ev Hc Hev).
  - reflexivity.
Qed.

(** ** Properties of log rotation *)

Section RotationFacts.
Import Logger.

Implicit Types (fs : gmap jsstring (list N)) (file : jsstring).

Lemma lookup_move_if_exists oldFile newFile fs file :
  oldFile <> newFile ->
  move_if_exists oldFile newFile fs !! file =
  if decide (file = newFile) then
    match fs !! oldFile with Some c => Some c | None => fs !! newFile end
  else if decide (file = oldFile) then None
  else fs !! file.
Proof.
  intros Hne. unfold move_if_exists, existsSync, renameSync.
  destruct (fs !! oldFile) as [c|] eqn:E; repeat case_decide; subst;
    try congruence.
  - apply lookup_insert_eq.
  - rewrite lookup_insert_ne by congruence. apply lookup_delete_eq.
  - rewrite lookup_insert_ne by congruence. now apply lookup_delete_ne.
Qed.

Lemma shift_generations_unfold fs :
  shift_generations 4 fs =
  move_if_exists (numbered 1) (numbered 2)
    (move_if_exists (numbered 2) (numbered 3)
       (move_if_exists (numbered 3) (numbered 4)
          (move_if_exists (numbered 4) (numbered 5) fs))).
Proof. reflexivity. Qed.

Lemma log_names_distinct :
  logFile <> numbered 1 /\ logFile <> numbered 2 /\ logFile <> numbered 3
  /\ logFile <> numbered 4 /\ logFile <> numbered 5
  /\ numbered 1 <> numbered 2 /\ numbered 1 <> numbered 3
  /\ numbered 1 <> numbered 4 /\ numbered 1 <> numbered 5
  /\ numbered 2 <> numbered 3 /\ numbered 2 <> numbered 4
  /\ numbered 2 <> numbered 5 /\ numbered 3 <> numbered 4
  /\ numbered 3 <> numbered 5 /\ numbered 4 <> numbered 5.
Proof. repeat split; intros E; vm_compute in E; discriminate E. Qed.

(** The files after a rotation, name by name. *)
Lemma rotation_lookups fs content file :
  fs !! logFile = Some content ->
  Z.of_nat (length content) > maxLogSize ->
  rotateLogsIfNeeded fs !! file =
  if decide (file = logFile) then Some []
  else if decide (file = numbered 1) then Some content
  else if decide (file = numbered 2) then fs !! numbered 1
  else if decide (file = numbered 3) then fs !! numbered 2
  else if decide (file = numbered 4) then fs !! numbered 3
  else if decide (file = numbered 5) then
    match fs !! numbered 4 with Some c => Some c | None => fs !! numbered 5 end
  else fs !! file.
Proof.
  intros E Hsize. unfold rotateLogsIfNeeded. rewrite E.
  destruct (Z.gtb_spec (Z.of_nat (length content)) maxLogSize) as [_|]; [|lia].
  change (maxLogFiles - 1)%nat with 4%nat. rewrite shift_generations_unfold.
  destruct log_names_distinct
    as (D01 & D02 & D03 & D04 & D05 & D12 & D13 & D14 & D15 & D23 & D24
        & D25 & D34 & D35 & D45).
  set (m4 := move_if_exists (numbered 4) (numbered 5) fs).
  set (m3 := move_if_exists (numbered 3) (numbered 4) m4).
  set (m2 := move_if_exists (numbered 2) (numbered 3) m3).
  set (m1 := move_if_exists (numbered 1) (numbered 2) m2).
  assert (forall f, m4 !! f = _) as L4
    by (intros f; apply (lookup_move_if_exists _ _ fs f D45)).
  assert (forall f, m3 !! f = _) as L3
    by (intros f; apply (lookup_move_if_exists _ _ m4 f D34)).
  assert (forall f, m2 !! f = _) as L2
    by (intros f; apply (lookup_move_if_exists _ _ m3 f D23)).
  assert (forall f, m1 !! f = _) as L1
    by (intros f; apply (lookup_move_if_exists _ _ m2 f D12)).
  clearbody m1 m2 m3 m4.
  assert (m1 !! logFile = Some content) as E1.
  { rewrite L1, !decide_False by congruence.
    rewrite L2, !decide_False by congruence.
    rewrite L3, !decide_False by congruence.
    now rewrite L4, !decide_False by congruence. }
  unfold renameSync. rewrite E1.
  destruct (decide (file = logFile)) as [->|N0]; [apply lookup_insert_eq|].
  rewrite lookup_insert_ne by congruence.
  destruct (decide (file = numbered 1)) as [->|N1]; [apply lookup_insert_eq|].
  rewrite lookup_insert_ne by congruence.
  rewrite lookup_delete_ne by congruence.
  rewrite L1.
  destruct (decide (file = numbered 2)) as [->|N2].
  { rewrite !L2, !L3, !L4. repeat case_decide; try congruence.
    destruct (fs !! numbered 1); reflexivity. }
  rewrite decide_False by exact N1. rewrite L2.
  destruct (decide (file = numbered 3)) as [->|N3].
  { rewrite !L3, !L4. repeat case_decide; try congruence.
    destruct (fs !! numbered 2); reflexivity. }
  rewrite decide_False by exact N2. rewrite L3.
  destruct (decide (file = numbered 4)) as [->|N4].
  { rewrite !L4. repeat case_decide; try congruence.
    destruct (fs !! numbered 3); reflexivity. }
  rewrite decide_False by exact N3. rewrite L4.
  destruct (decide (file = numbered 5)) as [->|N5]; [reflexivity|].
  now rewrite decide_False by exact N4.
Qed.

End RotationFacts.

(** X21: when the log file has grown beyond [maxLogSize], a rotation
    empties it, moves its content to [.1] and every existing generation
    one place up, [.1] to [.2] up to [.4] to [.5]; the former [.5] is lost
    if [.4] existed, and no other file is touched. *)
Theorem rotation_shifts_generations
    (fs : gmap jsstring (list N)) (content : list N) :
  fs !! Logger.logFile = Some content ->
  Z.of_nat (length content) > Logger.maxLogSize ->
  let fs' := Logger.rotateLogsIfNeeded fs in
  fs' !! Logger.logFile = Some []
  /\ fs' !! Logger.numbered 1 = Some content
  /\ fs' !! Logger.numbered 2 = fs !! Logger.numbered 1
  /\ fs' !! Logger.numbered 3 = fs !! Logger.numbered 2
  /\ fs' !! Logger.numbered 4 = fs !! Logger.numbered 3
  /\ fs' !! Logger.numbered 5
     = match fs !! Logger.numbered 4 with
       | Some c => Some c
       | None => fs !! Logger.numbered 5
       end
  /\ (forall file,
        file <> Logger.logFile ->
        (forall i, (1 <= i <= 5)%nat -> file <> Logger.numbered i) ->
        fs' !! file = fs !! file).
Proof.
  intros E Hsize fs'. subst fs'.
  destruct log_names_distinct
    as (D01 & D02 & D03 & D04 & D05 & D12 & D13 & D14 & D15 & D23 & D24
        & D25 & D34 & D35 & D45).
  repeat split; try (rewrite (rotation_lookups fs content _ E Hsize);
                     repeat case_decide; congruence).
  intros file H0 Hi. rewrite (rotation_lookups fs content _ E Hsize).
  repeat case_decide; try reflexivity; subst.
  - congruence.
  - exfalso. apply (Hi 1%nat); [lia | reflexivity].
  - exfalso. apply (Hi 2%nat); [lia | reflexivity].
  - exfalso. apply (Hi 3%nat); [lia | reflexivity].
  - exfalso. apply (Hi 4%nat); [lia | reflexivity].
  - exfalso. apply (Hi 5%nat); [lia | reflexivity].
Qed.

Lemma rotation_shifts_generations_witness :
  let content := repeat 0x61%N (Z.to_nat 1048577) in
  let fs : gmap jsstring (list N) :=
    <[Logger.logFile := content]> {[Logger.numbered 1 := [0x62%N]]} in
  let fs' := Logger.rotateLogsIfNeeded fs in
  (fs !! Logger.logFile = Some content
   /\ Z.of_nat (length content) > Logger.maxLogSize)
  /\ fs' !! Logger.logFile = Some []
  /\ fs' !! Logger.numbered 1 = Some content
  /\ fs' !! Logger.numbered 2 = fs !! Logger.numbered 1.
Proof.
  intros content fs fs'.
  assert (fs !! Logger.logFile = Some content) as E by apply lookup_insert_eq.
  assert (Z.of_nat (length content) > Logger.maxLogSize) as Hsize.
  { subst content. rewrite repeat_length, Z2Nat.id by lia.
    unfold Logger.maxLogSize. lia. }
  destruct (rotation_shifts_generations fs content E Hsize)
    as (H0 & H1 & H2 & _).
  split; [split; assumption|]. split; [exact H0|]. split; [exact H1 | exact H2].
Defined.

(** X22: after every write the log file exists and holds at most
    [maxLogSize] bytes, and the line just written is not lost: it ends
    the log file, or, if the write made the file too large, it ends
    [.1] and the log file starts again empty. *)
Theorem writeToFile_bounds_the_log
    (logLine : list N) (fs : gmap jsstring (list N)) :
  let written := default [] (fs !! Logger.logFile) ++ logLine in
  let fs' := Logger.writeToFile logLine fs in
  exists content,
    fs' !! Logger.logFile = Some content
    /\ Z.of_nat (length content) <= Logger.maxLogSize
    /\ ((content = written
         /\ fs' = Logger.appendFileSync Logger.logFile logLine fs)
        \/ (content = []
            /\ Z.of_nat (length written) > Logger.maxLogSize
            /\ fs' !! Logger.numbered 1 = Some written)).
Proof.
  intros written fs'. subst fs'. unfold Logger.writeToFile.
  set (appended := Logger.appendFileSync Logger.logFile logLine fs).
  assert (appended !! Logger.logFile = Some written) as E
    by apply lookup_insert_eq.
  destruct (Z_gt_le_dec (Z.of_nat (length written)) Logger.maxLogSize) as [G|L].
  - exists []. destruct log_names_distinct as (D01 & _).
    rewrite !(rotation_lookups appended written _ E G).
    rewrite decide_True by reflexivity.
    rewrite decide_False by congruence. rewrite decide_True by reflexivity.
    split; [reflexivity|]. split; [unfold Logger.maxLogSize; simpl; lia|].
    right. now repeat split.
  - exists written. unfold Logger.rotateLogsIfNeeded. rewrite E.
    destruct (Z.gtb_spec (Z.of_nat (length written)) Logger.maxLogSize);
      [lia|].
    split; [exact E|]. split; [exact L|]. left. now split.
Qed.
